(** * A Kademlia-style peer: wire codec, routing table and liveness tracker

    Shallow embedding of the JavaScript sources
    - [Singleton.js]   ([Hex2Bin], [XORing]),
    - [RoutingTable.js] (the class [RoutingTable]),
    - [Heartbeat.js]   (the liveness cycle and [handleHeartbeatResponse]),
    - [kPTP.js]        (the binary message encoder and decoder),
    - [DHTPeer.js]     ([sendHeartbeatToPeer], as far as its caller sees it),
    followed by the properties of the specification that concern them.

    Conventions of the embedding.
    - A JavaScript string that is read character by character (an
      identity, an address) is a [string]; the identities and addresses the
      program handles are ASCII texts.  A string that is turned into UTF-8
      bytes or made from them (a display name, a JSON text) is the list of
      its UTF-16 code units, a [list Z] with each element in [0, 65535]:
      [Buffer.from(s, "utf8")] writes U+FFFD for a surrogate that has no
      partner, and [buf.toString("utf8")] writes U+FFFD for each ill-formed
      byte sequence.
    - A [Buffer] is a [list byte]; numbers are [Z].
    - A call that throws returns [Throw e]; [undefined] is [None].
    - [singleton.getTimestamp()] reads a global timer: every operation that
      calls it takes the current tick as an argument [now]. *)

From Stdlib Require Import ZArith Lia Bool Ascii String List.
From Stdlib.Strings Require Import Byte.
From Stdlib Require Import DecimalString DecimalN.
From stdpp Require Import base option list gmap strings.

Local Open Scope string_scope.
Local Open Scope Z_scope.

(* ===================================================================== *)
(** ** Singleton.js *)
(* ===================================================================== *)

Module Singleton.

(** [parseInt(c, 16)] for a one-character string [c]; [None] is [NaN]. *)
Definition parseInt16 (c : ascii) : option Z :=
  let n := Z.of_nat (nat_of_ascii c) in
  if (48 <=? n) && (n <=? 57) then Some (n - 48)
  else if (97 <=? n) && (n <=? 102) then Some (n - 87)
  else if (65 <=? n) && (n <=? 70) then Some (n - 55)
  else None.

Definition bit (v : Z) (i : Z) : ascii :=
  if Z.testbit v i then "1"%char else "0"%char.

(** [v.toString(2).padStart(4, "0")] for [0 <= v < 16];
    for [NaN] the text is ["NaN"], padded to ["0NaN"]. *)
Definition toString2_padStart4 (v : option Z) : string :=
  match v with
  | Some v => String (bit v 3) (String (bit v 2) (String (bit v 1) (String (bit v 0) "")))
  | None => "0NaN"
  end.

(** [hex.split("").map(str => parseInt(str, 16).toString(2).padStart(4, "0")).join("")] *)
Fixpoint Hex2Bin (hex : string) : string :=
  match hex with
  | EmptyString => ""
  | String str rest => toString2_padStart4 (parseInt16 str) ++ Hex2Bin rest
  end.

(** The loop runs over the indices of [a]; past the end of [b] the
    character [b[i]] is [undefined], which differs from every [a[i]]. *)
Fixpoint XORing (a b : string) : string :=
  match a with
  | EmptyString => ""
  | String ai a' =>
      match b with
      | String bi b' =>
          String (if Ascii.eqb ai bi then "0"%char else "1"%char) (XORing a' b')
      | EmptyString => String "1"%char (XORing a' "")
      end
  end.

End Singleton.

(* ===================================================================== *)
(** ** JavaScript built-ins used by RoutingTable.js *)
(* ===================================================================== *)

(** [s.indexOf(c)] for a one-character [c]: [-1] when [c] does not occur. *)
Fixpoint indexOf (c : ascii) (s : string) : Z :=
  match s with
  | EmptyString => -1
  | String d rest =>
      if Ascii.eqb d c then 0
      else let i := indexOf c rest in if i =? -1 then -1 else i + 1
  end.

(** [parseInt(s, 2)] on the texts [XORing] produces: the longest prefix of
    binary digits is read; [None] is [NaN] (no digit at all).  Leading white
    space and a sign, which [parseInt] also accepts, do not occur in the
    output of [XORing].  The value is exact below 2^53, hence for every text
    of at most 53 characters. *)
Fixpoint parseInt2_from (acc : option Z) (s : string) : option Z :=
  match s with
  | String c rest =>
      if Ascii.eqb c "0"%char then parseInt2_from (Some (2 * default 0 acc)) rest
      else if Ascii.eqb c "1"%char then parseInt2_from (Some (2 * default 0 acc + 1)) rest
      else acc
  | EmptyString => acc
  end.

Definition parseInt2 (s : string) : option Z := parseInt2_from None s.

(** Comparison of two numbers either of which may be [NaN]:
    every comparison with [NaN] is false. *)
Definition num_lt (x y : option Z) : bool :=
  match x, y with Some x, Some y => x <? y | _, _ => false end.

Definition num_eq (x y : option Z) : bool :=
  match x, y with Some x, Some y => x =? y | _, _ => false end.

Definition num_gt (x y : option Z) : bool := num_lt y x.

(** [Array.prototype.sort(compare)] is stable; [compare a b <= 0] keeps [a]
    before [b].  Insertion into the sorted tail, the new element going in
    front of the elements it does not exceed. *)
Section Sort.
Context {A : Type} (compare : A -> A -> Z).

Fixpoint sort_insert (x : A) (l : list A) : list A :=
  match l with
  | [] => [x]
  | y :: l' => if compare x y <=? 0 then x :: y :: l' else y :: sort_insert x l'
  end.

Definition sort (l : list A) : list A := foldr sort_insert [] l.
End Sort.

(* ===================================================================== *)
(** ** RoutingTable.js *)
(* ===================================================================== *)

(** A peer object [{ peerID, ip, port, senderName, lastSeen }].  Objects
    built from a decoded peer entry have no [senderName], and no [lastSeen]
    until one is assigned. *)
Record Peer : Type := mkPeer {
  peerID : string;
  ip : string;
  port : Z;
  senderName : option (list Z);
  lastSeen : option Z
}.

Definition set_lastSeen (t : Z) (peer : Peer) : Peer :=
  {| peerID := peerID peer; ip := ip peer; port := port peer;
     senderName := senderName peer; lastSeen := Some t |}.

Module RoutingTable.
Import Singleton.

(** [this.peerID] and [this.kBuckets]. *)
Record t : Type := mk {
  this_peerID : string;
  kBuckets : list (list Peer)
}.

Definition set_kBuckets (this : t) (bs : list (list Peer)) : t :=
  {| this_peerID := this_peerID this; kBuckets := bs |}.

Definition constructor (peerID : string) : t :=
  {| this_peerID := peerID; kBuckets := replicate 16 [] |}.

(** The XOR distance [parseInt(XORing(Hex2Bin(this.peerID), Hex2Bin(id)), 2)]
    that [comparePeerDistance] and [getClosestPeers] both compute. *)
Definition distance (this : t) (id : string) : option Z :=
  parseInt2 (XORing (Hex2Bin (this_peerID this)) (Hex2Bin id)).

(** On strings neither [Hex2Bin] nor [XORing] throws, so the [catch]
    branch returning [-1] is never taken. *)
Definition getBucketIndex (this : t) (peerID : string) : Z :=
  let thisPeerBinary := Hex2Bin (this_peerID this) in
  let otherPeerBinary := Hex2Bin peerID in
  let xorResult := XORing thisPeerBinary otherPeerBinary in
  let index := indexOf "1"%char xorResult in
  if index =? -1 then 0 else index.

Definition comparePeerDistance (this : t) (existingPeer newPeer : Peer) : bool :=
  let distanceExisting := distance this (peerID existingPeer) in
  let distanceNew := distance this (peerID newPeer) in
  if num_lt distanceNew distanceExisting then true
  else if num_eq distanceNew distanceExisting then
    if num_gt (lastSeen newPeer) (lastSeen existingPeer) then true else false
  else false.

(** [None] is the [TypeError] of [bucket.length] when
    [this.kBuckets[bucketIndex]] is [undefined]; it is thrown before any
    bucket is touched.  The argument is an object, so [!peer] is false; an
    empty [peerID] is falsy. *)
Definition pushBucket (this : t) (peer : Peer) (now : Z) : option t :=
  if String.eqb (peerID peer) "" then Some this
  else
    let peer := match lastSeen peer with
                | None => set_lastSeen now peer
                | Some _ => peer
                end in
    let bucketIndex := getBucketIndex this (peerID peer) in
    if bucketIndex =? -1 then Some this
    else
      match kBuckets this !! Z.to_nat bucketIndex with
      | None => None
      | Some [] =>
          Some (set_kBuckets this (<[Z.to_nat bucketIndex := [peer]]> (kBuckets this)))
      | Some (existingPeer :: others) =>
          if comparePeerDistance this existingPeer peer
          then Some (set_kBuckets this
                       (<[Z.to_nat bucketIndex := peer :: others]> (kBuckets this)))
          else Some this
      end.

(** The [TypeError] of [undefined.filter] is caught inside [removePeer]. *)
Definition removePeer (this : t) (id : string) : t :=
  let bucketIndex := getBucketIndex this id in
  if bucketIndex =? -1 then this
  else
    match kBuckets this !! Z.to_nat bucketIndex with
    | None => this
    | Some bucket =>
        set_kBuckets this
          (<[Z.to_nat bucketIndex := filter (fun peer => peerID peer <> id) bucket]>
             (kBuckets this))
    end.

(** [this.kBuckets.flat()] *)
Definition flat (this : t) : list Peer := concat (kBuckets this).

(** The comparator of [getClosestPeers]; a [NaN] result counts as [0]. *)
Definition compareDistance (this : t) (a b : Peer) : Z :=
  match distance this (peerID a), distance this (peerID b) with
  | Some distanceA, Some distanceB => distanceA - distanceB
  | _, _ => 0
  end.

(** The parameter [targetID] is not used by the body. *)
Definition getClosestPeers (this : t) (targetID : string) : list Peer :=
  let allPeers := flat this in
  let allPeers := sort (compareDistance this) allPeers in
  take 1 allPeers.

Definition hasPeer (this : t) (id : string) : bool :=
  existsb (fun bucket => existsb (fun peer => String.eqb (peerID peer) id) bucket)
          (kBuckets this).

(** Sequences of table operations, applied to a fresh table.  A
    [pushBucket] that throws leaves the table as it was. *)
Inductive Op : Type :=
| Push (peer : Peer) (now : Z)
| Remove (id : string).

Definition apply (this : t) (op : Op) : t :=
  match op with
  | Push peer now => default this (pushBucket this peer now)
  | Remove id => removePeer this id
  end.

Definition after (peerID : string) (ops : list Op) : t :=
  foldl apply (constructor peerID) ops.

(** The shape every table built by these operations has: a bucket holds
    at most one record, and a record sits in the bucket of its index. *)
Definition wf (this : t) : Prop :=
  forall (i : nat) (bucket : list Peer),
    kBuckets this !! i = Some bucket ->
    (List.length bucket <= 1)%nat /\
    forall peer, peer ∈ bucket -> getBucketIndex this (peerID peer) = Z.of_nat i.

End RoutingTable.

(** A 16-bit identity: four hexadecimal characters. *)
Definition is_hex (c : ascii) : bool := bool_decide (is_Some (Singleton.parseInt16 c)).

Definition is_identity (s : string) : bool :=
  match s with
  | String a (String b (String c (String d EmptyString))) =>
      is_hex a && is_hex b && is_hex c && is_hex d
  | _ => false
  end.

(* ===================================================================== *)
(** ** Buffers and thrown errors *)
(* ===================================================================== *)

Inductive Error : Type := RangeError | TypeError.

Inductive Result (A : Type) : Type :=
| Ok (a : A)
| Throw (e : Error).

Arguments Ok {A} a.
Arguments Throw {A} e.

#[global] Instance Result_ret : MRet Result := fun A a => Ok a.
#[global] Instance Result_bind : MBind Result := fun A B k m =>
  match m with
  | Ok a => k a
  | Throw e => Throw e
  end.

Module Buffer.

Abbreviation t := (list byte) (only parsing).

Definition u8 (b : byte) : Z := Z.of_N (Byte.to_N b).

(** The byte holding [z], for [0 <= z < 256]. *)
Definition of_u8 (z : Z) : byte := default x00 (Byte.of_N (Z.to_N z)).

(** [buf.readUInt8(offset)] and [buf.readUInt16BE(offset)] throw a
    [RangeError] when the bytes read do not all lie inside the buffer. *)
Definition readUInt8 (buf : t) (offset : nat) : Result Z :=
  match buf !! offset with
  | Some b => Ok (u8 b)
  | None => Throw RangeError
  end.

Definition readUInt16BE (buf : t) (offset : nat) : Result Z :=
  match buf !! offset, buf !! S offset with
  | Some first, Some last => Ok (u8 first * 256 + u8 last)
  | _, _ => Throw RangeError
  end.

(** [buf.writeUInt8(value)] and [buf.writeUInt16BE(value)] throw a
    [RangeError] when [value] does not fit; the result is the bytes written. *)
Definition writeUInt8 (value : Z) : Result t :=
  if (0 <=? value) && (value <=? 255) then Ok [of_u8 value]
  else Throw RangeError.

Definition writeUInt16BE (value : Z) : Result t :=
  if (0 <=? value) && (value <=? 65535)
  then Ok [of_u8 (value / 256); of_u8 (value mod 256)]
  else Throw RangeError.

(** [buf.slice(start, end)] for [0 <= start <= end]: clamped to the
    buffer, never throws. *)
Definition slice (buf : t) (start end_ : nat) : t :=
  take (end_ - start) (drop start buf).

(** A UTF-16 code unit that is the first, or the second, half of a
    surrogate pair. *)
Definition is_high_surrogate (u : Z) : bool := (0xD800 <=? u) && (u <=? 0xDBFF).
Definition is_low_surrogate (u : Z) : bool := (0xDC00 <=? u) && (u <=? 0xDFFF).

(** The UTF-8 bytes of a code point [c < 0x110000]. *)
Definition utf8_bytes (c : Z) : t :=
  if c <? 0x80 then [of_u8 c]
  else if c <? 0x800 then [of_u8 (0xC0 + c / 64); of_u8 (0x80 + c mod 64)]
  else if c <? 0x10000
  then [of_u8 (0xE0 + c / 4096); of_u8 (0x80 + c / 64 mod 64); of_u8 (0x80 + c mod 64)]
  else [of_u8 (0xF0 + c / 262144); of_u8 (0x80 + c / 4096 mod 64);
        of_u8 (0x80 + c / 64 mod 64); of_u8 (0x80 + c mod 64)].

(** [Buffer.from(s, "utf8")]: a surrogate pair is written as the four
    bytes of its code point, any other surrogate as the bytes [EF BF BD] of
    U+FFFD, every other code unit as its own one to three bytes. *)
Fixpoint from_utf8 (s : list Z) : t :=
  match s with
  | [] => []
  | u :: rest =>
      if is_high_surrogate u then
        match rest with
        | v :: rest' =>
            if is_low_surrogate v
            then (utf8_bytes (0x10000 + (u - 0xD800) * 1024 + (v - 0xDC00))
                  ++ from_utf8 rest')%list
            else (utf8_bytes 0xFFFD ++ from_utf8 rest)%list
        | [] => utf8_bytes 0xFFFD
        end
      else if is_low_surrogate u then (utf8_bytes 0xFFFD ++ from_utf8 rest)%list
      else (utf8_bytes u ++ from_utf8 rest)%list
  end.

(** [Buffer.byteLength(s, "utf8")] *)
Definition byteLength (s : list Z) : Z := Z.of_nat (List.length (from_utf8 s)).

Definition between (lower upper : Z) (b : byte) : bool :=
  (lower <=? u8 b) && (u8 b <=? upper).

(** The code units of a code point: itself, or a surrogate pair. *)
Definition code_units (c : Z) : list Z :=
  if c <? 0x10000 then [c]
  else [0xD800 + (c - 0x10000) / 1024; 0xDC00 + (c - 0x10000) mod 1024].

(** [buf.toString("utf8")]: the bytes are read as UTF-8; a lead byte and
    the continuation bytes that may follow it give one code point; a byte
    that can start no sequence, and a sequence cut off by a byte that
    cannot continue it or by the end of the buffer, give U+FFFD, and
    reading goes on at the byte that cut the sequence off.  A byte order
    mark is kept. *)
Fixpoint toString_utf8 (buf : t) : list Z :=
  match buf with
  | [] => []
  | b0 :: rest =>
      if u8 b0 <? 0x80 then u8 b0 :: toString_utf8 rest
      else if between 0xC2 0xDF b0 then
        match rest with
        | b1 :: rest1 =>
            if between 0x80 0xBF b1
            then ((u8 b0 - 0xC0) * 64 + (u8 b1 - 0x80)) :: toString_utf8 rest1
            else 0xFFFD :: toString_utf8 rest
        | [] => [0xFFFD]
        end
      else if between 0xE0 0xEF b0 then
        let lower := if u8 b0 =? 0xE0 then 0xA0 else 0x80 in
        let upper := if u8 b0 =? 0xED then 0x9F else 0xBF in
        match rest with
        | b1 :: rest1 =>
            if between lower upper b1 then
              match rest1 with
              | b2 :: rest2 =>
                  if between 0x80 0xBF b2
                  then ((u8 b0 - 0xE0) * 4096 + (u8 b1 - 0x80) * 64 + (u8 b2 - 0x80))
                       :: toString_utf8 rest2
                  else 0xFFFD :: toString_utf8 rest1
              | [] => [0xFFFD]
              end
            else 0xFFFD :: toString_utf8 rest
        | [] => [0xFFFD]
        end
      else if between 0xF0 0xF4 b0 then
        let lower := if u8 b0 =? 0xF0 then 0x90 else 0x80 in
        let upper := if u8 b0 =? 0xF4 then 0x8F else 0xBF in
        match rest with
        | b1 :: rest1 =>
            if between lower upper b1 then
              match rest1 with
              | b2 :: rest2 =>
                  if between 0x80 0xBF b2 then
                    match rest2 with
                    | b3 :: rest3 =>
                        if between 0x80 0xBF b3
                        then (code_units ((u8 b0 - 0xF0) * 262144 + (u8 b1 - 0x80) * 4096
                                          + (u8 b2 - 0x80) * 64 + (u8 b3 - 0x80))
                              ++ toString_utf8 rest3)%list
                        else 0xFFFD :: toString_utf8 rest2
                    | [] => [0xFFFD]
                    end
                  else 0xFFFD :: toString_utf8 rest1
              | [] => [0xFFFD]
              end
            else 0xFFFD :: toString_utf8 rest
        | [] => [0xFFFD]
        end
      else 0xFFFD :: toString_utf8 rest
  end.

Definition hexDigit (v : Z) : ascii :=
  ascii_of_nat (Z.to_nat (if v <? 10 then 48 + v else 87 + v)).

(** [buf.toString("hex")]: two lower-case digits per byte. *)
Fixpoint toString_hex (buf : t) : string :=
  match buf with
  | [] => ""
  | b :: rest =>
      String (hexDigit (u8 b / 16)) (String (hexDigit (u8 b mod 16)) (toString_hex rest))
  end.

(** [Buffer.from(s, "hex")]: pairs of hexadecimal digits are read until a
    pair is incomplete or holds another character. *)
Fixpoint from_hex (s : string) : t :=
  match s with
  | String hi (String lo rest) =>
      match Singleton.parseInt16 hi, Singleton.parseInt16 lo with
      | Some h, Some l => of_u8 (16 * h + l) :: from_hex rest
      | _, _ => []
      end
  | _ => []
  end.

End Buffer.

(** [s.split(sep)] for a one-character separator. *)
Fixpoint split (sep : ascii) (s : string) : list string :=
  match s with
  | EmptyString => [""]
  | String c rest =>
      if Ascii.eqb c sep then "" :: split sep rest
      else match split sep rest with
           | part :: parts => String c part :: parts
           | [] => [String c ""]
           end
  end.

(** [Number(s)] on texts made of decimal digits only, the empty text
    included ([Number("") = 0]); [None] is [NaN].  The other numeric
    literals [Number] reads (sign, fraction, exponent, radix prefix, white
    space) are given as [NaN]: the model of [encodeIP] is exact on dotted
    decimal addresses only. *)
Definition Number (s : string) : option N :=
  N.of_uint <$> NilEmpty.uint_of_string s.

(** [String(n)] for a natural number [n], as [Array.prototype.join] renders
    the elements of a byte array. *)
Definition toString10 (n : N) : string := NilZero.string_of_uint (N.to_uint n).

(** Storing [parts[i]] into a [Uint8Array] cell: [undefined] and [NaN]
    store [0], a number is reduced modulo 256. *)
Definition toUint8 (v : option (option N)) : byte :=
  match v with
  | Some (Some n) => Buffer.of_u8 (Z.of_N n mod 256)
  | _ => x00
  end.

(* ===================================================================== *)
(** ** kPTP.js *)
(* ===================================================================== *)

Module kPTP.
Import Buffer.

Definition kPTP_VERSION : Z := 18.

Inductive MessageType : Type := WELCOME | HELLO | HEARTBEAT | HEARTBEAT_RESPONSE.

Definition MESSAGE_TYPE (m : MessageType) : Z :=
  match m with
  | WELCOME => 2
  | HELLO => 4
  | HEARTBEAT => 6
  | HEARTBEAT_RESPONSE => 8
  end.

Definition encodeIP (ip : string) : Buffer.t :=
  let parts := map Number (split "." ip) in
  map (fun i : nat => toUint8 (parts !! i)) [0%nat; 1%nat; 2%nat; 3%nat].

(** [port] is a number; [parseInt(port, 10)] of an integer is that integer. *)
Definition encodePort (port : Z) : Result Buffer.t := writeUInt16BE port.

Definition encodePeerID (peerID : string) : Buffer.t := from_hex peerID.

Definition createHeader (messageType numPeers : Z) (senderName : list Z)
  : Result Buffer.t :=
  version ← writeUInt8 kPTP_VERSION;
  type ← writeUInt8 messageType;
  count ← writeUInt8 numPeers;
  nameLength ← writeUInt16BE (byteLength senderName);
  Ok (version ++ type ++ count ++ nameLength)%list.

Definition encodePeerInfo (peer : Peer) : Result Buffer.t :=
  let ipBuf := encodeIP (ip peer) in
  portBuf ← encodePort (port peer);
  let idBuf := encodePeerID (peerID peer) in
  Ok (ipBuf ++ portBuf ++ idBuf)%list.

(** [peers.map(encodePeerInfo)]: the first entry that throws ends the map. *)
Fixpoint map_encodePeerInfo (peers : list Peer) : Result (list Buffer.t) :=
  match peers with
  | [] => Ok []
  | peer :: rest =>
      buf ← encodePeerInfo peer;
      bufs ← map_encodePeerInfo rest;
      Ok (buf :: bufs)
  end.

Definition createMessage (messageType : Z) (senderName : list Z) (peers : list Peer)
  : Result Buffer.t :=
  let numPeers := Z.of_nat (List.length peers) in
  header ← createHeader messageType numPeers senderName;
  peersBuffers ← map_encodePeerInfo peers;
  let peersData := concat peersBuffers in
  let senderNameBuf := from_utf8 senderName in
  Ok (header ++ peersData ++ senderNameBuf)%list.

Definition createWelcomeMessage (senderName : list Z) (peers : list Peer)
  : Result Buffer.t :=
  createMessage (MESSAGE_TYPE WELCOME) senderName peers.

Definition createHeartbeatMessage (senderName : list Z) (senderIP : string) (senderPort : Z)
    (senderPeerID : string) : Result Buffer.t :=
  createMessage (MESSAGE_TYPE HEARTBEAT) senderName
    [ mkPeer senderPeerID senderIP senderPort None None ].

Definition createHeartbeatResponse (senderName : list Z) (senderIP : string) (senderPort : Z)
    (senderPeerID : string) : Result Buffer.t :=
  createMessage (MESSAGE_TYPE HEARTBEAT_RESPONSE) senderName
    [ mkPeer senderPeerID senderIP senderPort None None ].

(** The object [decodeMessage] returns. *)
Record Message (J : Type) : Type := mkMessage {
  version : Z;
  messageType : Z;
  numPeers : Z;
  senderName : list Z;
  peers : list Peer;
  selfInfo : J
}.
Arguments mkMessage {J}.
Arguments version {J}.
Arguments messageType {J}.
Arguments numPeers {J}.
Arguments senderName {J}.
Arguments peers {J}.
Arguments selfInfo {J}.

(** The loop of [decodeMessage]: [n] entries read from [offset]; the result
    is the entries and the offset after them. *)
Fixpoint decodePeers (buffer : Buffer.t) (n : nat) (offset : nat)
  : Result (list Peer * nat) :=
  match n with
  | O => Ok ([], offset)
  | S n' =>
      let ipBuf := slice buffer offset (offset + 4) in
      let ip := String.concat "." (map (fun b => toString10 (Byte.to_N b)) ipBuf) in
      let offset := (offset + 4)%nat in
      port ← readUInt16BE buffer offset;
      let offset := (offset + 2)%nat in
      let peerID := toString_hex (slice buffer offset (offset + 2)) in
      let offset := (offset + 2)%nat in
      rest ← decodePeers buffer n' offset;
      Ok (mkPeer peerID ip port None None :: rest.1, rest.2)
  end.

(** The JSON codec of the platform.  [J] is the type of JavaScript values,
    [null] among them; a JSON text is a JavaScript string.  [JSON_parse]
    gives [None] when [JSON.parse] throws, [JSON_stringify] gives [None]
    when [JSON.stringify] returns [undefined]. *)
Section JSON.
Context {J : Type} (null : J).
Context (JSON_parse : list Z -> option J) (JSON_stringify : J -> option (list Z)).

(** [Buffer.from(undefined, "utf8")] throws a [TypeError]. *)
Definition createHelloMessage (senderName : list Z) (peers : list Peer) (selfInfo : J)
  : Result Buffer.t :=
  baseMessage ← createMessage (MESSAGE_TYPE HELLO) senderName peers;
  match JSON_stringify selfInfo with
  | Some text => Ok (baseMessage ++ from_utf8 text)%list
  | None => Throw TypeError
  end.

Definition decodeMessage (buffer : Buffer.t) : Result (Message J) :=
  version ← readUInt8 buffer 0;
  messageType ← readUInt8 buffer 1;
  numPeers ← readUInt8 buffer 2;
  senderNameLength ← readUInt16BE buffer 3;
  loop ← decodePeers buffer (Z.to_nat numPeers) 5;
  let peers := loop.1 in
  let offset := loop.2 in
  let senderName :=
    toString_utf8 (slice buffer offset (offset + Z.to_nat senderNameLength)) in
  let offset := (offset + Z.to_nat senderNameLength)%nat in
  let selfInfo :=
    if (offset <? List.length buffer)%nat
    then match JSON_parse (toString_utf8 (drop offset buffer)) with
         | Some value => value
         | None => null
         end
    else null in
  Ok {| version := version; messageType := messageType; numPeers := numPeers;
        senderName := senderName; peers := peers; selfInfo := selfInfo |}.
End JSON.

End kPTP.

(* ===================================================================== *)
(** ** Heartbeat.js *)
(* ===================================================================== *)

(** The object [selfInfo] handed to [startHeartbeat]:
    [{ senderName, ip, port, peerID }]. *)
Module SelfInfo.
Record t : Type := mk {
  senderName : list Z;
  ip : string;
  port : Z;
  peerID : string
}.
End SelfInfo.

Module Heartbeat.
Import RoutingTable.

(** A number stored in [missedCounts]; [NaN] is one of them. *)
Inductive Count : Type :=
| Num (n : Z)
| NaN.

(** The state the module works on: the routing table handed to
    [startHeartbeat], which is also [global.routingTable], and the
    module-level object [missedCounts], given by its own properties.  Keys
    are peer identities. *)
Record Node : Type := mkNode {
  routingTable : RoutingTable.t;
  missedCounts : gmap string Count
}.

(** [missedCounts] is created by [{}]: besides its own properties it has
    the ones every object inherits from [Object.prototype].  All of them
    are functions, except ["__proto__"], an accessor that reads as the
    prototype object. *)
Definition Object_prototype : list string :=
  [ "constructor"; "hasOwnProperty"; "isPrototypeOf"; "propertyIsEnumerable";
    "toLocaleString"; "toString"; "valueOf"; "__proto__";
    "__defineGetter__"; "__defineSetter__"; "__lookupGetter__"; "__lookupSetter__" ].

Definition inherited (key : string) : bool := existsb (String.eqb key) Object_prototype.

(** [missedCounts[key] === undefined]: no own property is ever
    [undefined], and no inherited one is. *)
Definition is_undefined (counts : gmap string Count) (key : string) : bool :=
  match counts !! key with
  | Some _ => false
  | None => negb (inherited key)
  end.

(** [missedCounts[key]] as a number: an own property is a number already;
    a function, an object and [undefined] are all converted to [NaN]. *)
Definition toNumber (counts : gmap string Count) (key : string) : Count :=
  match counts !! key with
  | Some count => count
  | None => NaN
  end.

(** [missedCounts[key] = value] for a number [value]: an own property is
    created or updated; for ["__proto__"] the inherited setter is called,
    which ignores a number. *)
Definition assign (key : string) (value : Count) (counts : gmap string Count)
  : gmap string Count :=
  if String.eqb key "__proto__" then counts else <[key := value]> counts.

(** [n + 1] and [n >= bound] on numbers: [NaN + 1] is [NaN], and every
    comparison with [NaN] is false. *)
Definition increment (count : Count) : Count :=
  match count with
  | Num n => Num (n + 1)
  | NaN => NaN
  end.

Definition at_least (count : Count) (bound : Z) : bool :=
  match count with
  | Num n => bound <=? n
  | NaN => false
  end.

Definition getAllPeers (routingTable : RoutingTable.t) : list Peer :=
  concat (kBuckets routingTable).

(** The second half of the callback of [peers.forEach], from the update of
    the count on, for the peer of identity [id]: the count is set to 1 or
    incremented, and a count of 3 or more removes the peer from the table
    and its count from the object. *)
Definition tally (st : Node) (id : string) : Node :=
  let counts :=
    if is_undefined (missedCounts st) id
    then assign id (Num 1) (missedCounts st)
    else assign id (increment (toNumber (missedCounts st) id)) (missedCounts st) in
  if at_least (toNumber counts id) 3
  then {| routingTable := removePeer (routingTable st) id;
          missedCounts := delete id counts |}
  else {| routingTable := routingTable st; missedCounts := counts |}.

Definition tally_peer (st : Node) (peer : Peer) : Node := tally st (peerID peer).

Definition touch (id : string) (now : Z) (peer : Peer) : Peer :=
  if String.eqb (peerID peer) id then set_lastSeen now peer else peer.

(** [global.routingTable] is set before the first message or cycle is
    handled, so the guard on it holds; the nested [forEach] assigns
    [lastSeen] in place in every record of the responding identity.  The
    callers pass the identity of a decoded peer entry, a text of
    hexadecimal digits, for which the assignment to [missedCounts[peerID]]
    is an ordinary one. *)
Definition handleHeartbeatResponse (st : Node) (id : string) (now : Z) : Node :=
  {| routingTable :=
       set_kBuckets (routingTable st)
         (map (map (touch id now)) (kBuckets (routingTable st)));
     missedCounts := <[id := Num 0]> (missedCounts st) |}.

(** What can happen to a node between two states: the table operations
    (a [pushBucket] that throws leaves the table as it was), a liveness
    cycle, and a heartbeat response. *)
Inductive Event : Type :=
| PushBucket (peer : Peer) (now : Z)
| RemovePeer (id : string)
| HeartbeatCycle
| HeartbeatResponse (id : string) (now : Z).

(** The count the cycle computes for a peer, before the test against 3. *)
Definition next_missed (st : Node) (id : string) : Count :=
  if is_undefined (missedCounts st) id then Num 1
  else increment (toNumber (missedCounts st) id).

(** No own property of [missedCounts] is [NaN], except under a key that
    is the name of an inherited property. *)
Definition numeric (counts : gmap string Count) : Prop :=
  forall key, counts !! key = Some NaN -> inherited key = true.


(** [startHeartbeat(routingTable, selfInfo, sendFunction)].  What
    [sendFunction] does to the network is not part of the state; its result
    here is whether the call returns or throws. *)
Section StartHeartbeat.
Context (selfInfo : SelfInfo.t) (sendFunction : Peer -> list byte -> Result unit).

(** The callback of [peers.forEach]: the heartbeat message is built and
    handed to [sendFunction], then the miss is counted.  When one of the two
    calls throws, the count of that peer is not touched. *)
Definition visit (st : Node) (peer : Peer) : Result Node :=
  heartbeatMsg ← kPTP.createHeartbeatMessage
                   (SelfInfo.senderName selfInfo) (SelfInfo.ip selfInfo)
                   (SelfInfo.port selfInfo) (SelfInfo.peerID selfInfo);
  _ ← sendFunction peer heartbeatMsg;
  Ok (tally st (peerID peer)).

(** [peers.forEach(...)]: an exception thrown for one peer ends the loop
    and leaves the interval callback; what was done for the peers before it
    stays done. *)
Fixpoint forEach_visit (st : Node) (peers : list Peer) : Node * Result unit :=
  match peers with
  | [] => (st, Ok tt)
  | peer :: rest =>
      match visit st peer with
      | Ok st' => forEach_visit st' rest
      | Throw e => (st, Throw e)
      end
  end.

(** One run of the interval callback of [startHeartbeat]: the peers are
    enumerated once, at the start.  The result is the state the run leaves
    and whether it ran to its end. *)
Definition heartbeatCycle (st : Node) : Node * Result unit :=
  forEach_visit st (getAllPeers (routingTable st)).

(** An exception that leaves the interval callback is not caught anywhere
    and ends the process.  [step] goes on from the state the cycle left, so
    that the states of [run] include every state the node goes through. *)
Definition step (st : Node) (ev : Event) : Node :=
  match ev with
  | PushBucket peer now =>
      {| routingTable := default (routingTable st) (pushBucket (routingTable st) peer now);
         missedCounts := missedCounts st |}
  | RemovePeer id =>
      {| routingTable := removePeer (routingTable st) id;
         missedCounts := missedCounts st |}
  | HeartbeatCycle => (heartbeatCycle st).1
  | HeartbeatResponse id now => handleHeartbeatResponse st id now
  end.

(** The node at start-up: the table is created for the identity in
    [selfInfo], and no count is recorded. *)
Definition start : Node :=
  {| routingTable := RoutingTable.constructor (SelfInfo.peerID selfInfo);
     missedCounts := ∅ |}.

Definition run (evs : list Event) : Node := foldl step start evs.
End StartHeartbeat.

End Heartbeat.

(* ===================================================================== *)
(** ** Messages in wire form *)
(* ===================================================================== *)

(** The four numbers of a dotted-decimal address, as the sender writes it. *)
Definition dotted (a b c d : N) : string :=
  toString10 a ++ "." ++ toString10 b ++ "." ++ toString10 c ++ "." ++ toString10 d.

(** An IPv4 address in dotted-decimal form: four numbers below 256, each
    written without sign and without leading zeros. *)
Definition is_dotted_quad (s : string) : bool :=
  match map Number (split "." s) with
  | [Some a; Some b; Some c; Some d] =>
      (a <? 256)%N && (b <? 256)%N && (c <? 256)%N && (d <? 256)%N
      && String.eqb s (dotted a b c d)
  | _ => false
  end.

Definition is_lower_hex (c : ascii) : bool :=
  let n := Z.of_nat (nat_of_ascii c) in
  ((48 <=? n) && (n <=? 57)) || ((97 <=? n) && (n <=? 102)).

(** An identity as [getPeerID] and [toString("hex")] write it: four
    lower-case hexadecimal digits. *)
Definition is_lower_identity (s : string) : bool :=
  match s with
  | String a (String b (String c (String d EmptyString))) =>
      is_lower_hex a && is_lower_hex b && is_lower_hex c && is_lower_hex d
  | _ => false
  end.

(** A peer whose address, port and identity are in the form the wire
    carries. *)
Definition wire_peer (peer : Peer) : bool :=
  is_dotted_quad (ip peer) && (0 <=? port peer) && (port peer <=? 65535)
  && is_lower_identity (peerID peer).

(** The peer entry [{ ip, port, peerID }] of a peer: what the encoder reads
    of it and what the decoder builds. *)
Definition entry_of (peer : Peer) : Peer :=
  {| peerID := peerID peer; ip := ip peer; port := port peer;
     senderName := None; lastSeen := None |}.

(** The buffers on which the reads of [decodeMessage] leave the buffer:
    fewer than 5 bytes, or, with [PeerCount > 0], fewer than
    [5 + 8 * PeerCount - 2] bytes, so that the port of some entry does not
    lie inside. *)
Definition too_short_to_read (buffer : Buffer.t) : bool :=
  let len := Z.of_nat (List.length buffer) in
  (len <? 5)
  || match buffer !! 2%nat with
     | Some count => (0 <? Buffer.u8 count) && (len <? 5 + 8 * Buffer.u8 count - 2)
     | None => true
     end.

(** The length the header of a buffer announces:
    [5 + 8 * PeerCount + NameLength]. *)
Definition implied_length (buffer : Buffer.t) : option Z :=
  match buffer !! 2%nat, buffer !! 3%nat, buffer !! 4%nat with
  | Some count, Some hi, Some lo =>
      Some (5 + 8 * Buffer.u8 count + (Buffer.u8 hi * 256 + Buffer.u8 lo))
  | _, _, _ => None
  end.

(** A string in which every surrogate is half of a pair: what
    [String.prototype.isWellFormed] tests.  Code units lie in [0, 65535]. *)
Fixpoint is_well_formed (s : list Z) : bool :=
  match s with
  | [] => true
  | u :: rest =>
      if Buffer.is_high_surrogate u then
        match rest with
        | v :: rest' => Buffer.is_low_surrogate v && is_well_formed rest'
        | [] => false
        end
      else if Buffer.is_low_surrogate u then false
      else (0 <=? u) && (u <=? 0xFFFF) && is_well_formed rest
  end.

(** A display name of 65536 bytes: the letter [a], 65536 times. *)
Definition name_of_65536_bytes : list Z := repeat 97 (Z.to_nat 65536).

(** A display name made of one surrogate without partner. *)
Definition name_of_one_surrogate : list Z := [0xD800].

(* ===================================================================== *)
(** ** DHTPeer.js: the function handed to [startHeartbeat] *)
(* ===================================================================== *)

Module DHTPeer.

(** [sendHeartbeatToPeer(peer, message)], as far as the caller sees it
    return: a socket is created, a timer is set, and
    [client.connect(peer.port, peer.ip, ...)] throws a [RangeError] when
    the port is not in [0, 65535]; the handlers it installs run as later
    events. *)
Definition sendHeartbeatToPeer (peer : Peer) (message : list byte) : Result unit :=
  if (0 <=? port peer) && (port peer <=? 65535) then Ok tt else Throw RangeError.

End DHTPeer.

(* ===================================================================== *)
(** ** Sample peers, tables, nodes and buffers *)
(* ===================================================================== *)

(** The JavaScript string of an ASCII text: one code unit per character. *)
Definition js (s : string) : list Z :=
  map (fun b => Z.of_N (Byte.to_N b)) (list_byte_of_string s).

(** The node [0000], named [Peer1], listening on port 5000. *)
Definition self_0000 : SelfInfo.t := SelfInfo.mk (js "Peer1") "127.0.0.1" 5000 "0000".


Definition peer_8000 : Peer := mkPeer "8000" "127.0.0.1" 5001 (Some (js "Peer2")) None.
Definition peer_0001 : Peer := mkPeer "0001" "127.0.0.1" 5003 (Some (js "Peer4")) None.

(** An incumbent of bucket 0 of the node [0000], and a closer candidate
    for the same bucket. *)
Definition incumbent_8001 : Peer := mkPeer "8001" "127.0.0.1" 5004 None (Some 10).
Definition candidate_8000 : Peer := mkPeer "8000" "127.0.0.1" 5001 None (Some 4).
Definition table_with_incumbent : RoutingTable.t :=
  RoutingTable.mk "0000" (<[0%nat := [incumbent_8001]]> (replicate 16 [])).

(** The table of the node [0000] after it has met [8000] and [0001]. *)
Definition table_of_two : RoutingTable.t :=
  RoutingTable.after "0000" [RoutingTable.Push peer_8000 1; RoutingTable.Push peer_0001 2].


(** The node [0000] after it has met [8000] and run one cycle. *)
Definition met_one_cycled : list Heartbeat.Event :=
  [Heartbeat.PushBucket peer_8000 1; Heartbeat.HeartbeatCycle].




(** A header announcing no peer and a name of five bytes, with nothing
    after it; and a header announcing one peer and a name of three bytes,
    followed by an address and a port only. *)
Definition buffer_without_name : list byte := [x12; x02; x00; x00; x05].
Definition buffer_without_identity : list byte :=
  [x12; x02; x01; x00; x03; x7f; x00; x00; x01; x13; x88].

(** A peer whose identity is written in upper case, and a peer known by
    an IPv6 socket address. *)
Definition peer_upper_case : Peer := mkPeer "A3F0" "127.0.0.1" 5000 None None.
Definition peer_ipv6 : Peer := mkPeer "a3f0" "::1" 5000 None None.

(** Two peers as a routing table holds them, in wire form. *)
Definition wire_peers : list Peer :=
  [ mkPeer "a3f0" "127.0.0.1" 5000 (Some (js "Peer1")) (Some 7);
    mkPeer "00ff" "10.0.0.2" 65535 None None ].

(* ===================================================================== *)
(** ** Tactics *)
(* ===================================================================== *)

(** Case analysis on every comparison of the goal, the impossible cases
    being closed by linear arithmetic. *)
Ltac decide_comparisons :=
  repeat match goal with
         | |- context [?a <? ?b] => destruct (Z.ltb_spec a b); try lia
         | |- context [?a <=? ?b] => destruct (Z.leb_spec a b); try lia
         | |- context [?a =? ?b] => destruct (Z.eqb_spec a b); try lia
         end;
  cbn [andb].

(* ===================================================================== *)
(** * Properties *)
(* ===================================================================== *)

(** ** Binary strings *)

Section BinaryStrings.
Import Singleton.

Lemma length_toString2_padStart4 v : String.length (toString2_padStart4 v) = 4%nat.
Proof. by destruct v. Qed.

Lemma length_append (s1 s2 : string) :
  String.length (s1 ++ s2) = (String.length s1 + String.length s2)%nat.
Proof. induction s1 as [|c s1 IH]; simpl; [done|by f_equal]. Qed.

Lemma length_Hex2Bin hex :
  String.length (Hex2Bin hex) = (4 * String.length hex)%nat.
Proof.
  induction hex as [|c hex IH]; [done|].
  cbn [Hex2Bin]. rewrite length_append, length_toString2_padStart4, IH.
  cbn [String.length]. lia.
Qed.

Lemma length_XORing a b : String.length (XORing a b) = String.length a.
Proof.
  revert b. induction a as [|c a IH]; intros b; [done|].
  destruct b; cbn [XORing String.length]; by rewrite IH.
Qed.

Lemma indexOf_range c s : -1 <= indexOf c s < Z.of_nat (String.length s).
Proof.
  induction s as [|d s IH]; cbn [indexOf String.length]; [lia|].
  destruct (Ascii.eqb d c); [lia|].
  destruct (Z.eqb_spec (indexOf c s) (-1)); lia.
Qed.

Lemma indexOf_XORing_self a : indexOf "1" (XORing a a) = -1.
Proof.
  induction a as [|c a IH]; [done|].
  cbn [XORing indexOf]. rewrite Ascii.eqb_refl. cbn. by rewrite IH.
Qed.

Lemma is_identity_length s : is_identity s = true -> String.length s = 4%nat.
Proof.
  destruct s as [|a [|b [|c [|d [|e s]]]]]; cbn; try discriminate; auto.
Qed.
End BinaryStrings.

(** ** The routing table *)

Section RoutingTableFacts.
Import Singleton RoutingTable.

Lemma getBucketIndex_set_kBuckets this bs id :
  getBucketIndex (set_kBuckets this bs) id = getBucketIndex this id.
Proof. reflexivity. Qed.

Lemma getBucketIndex_bounds this id :
  0 <= getBucketIndex this id < Z.max 1 (4 * Z.of_nat (String.length (this_peerID this))).
Proof.
  unfold getBucketIndex.
  pose proof (indexOf_range "1" (XORing (Hex2Bin (this_peerID this)) (Hex2Bin id))) as H.
  rewrite length_XORing, length_Hex2Bin in H.
  destruct (Z.eqb_spec (indexOf "1" (XORing (Hex2Bin (this_peerID this)) (Hex2Bin id))) (-1)); lia.
Qed.

Lemma getBucketIndex_self this : getBucketIndex this (this_peerID this) = 0.
Proof. unfold getBucketIndex. by rewrite indexOf_XORing_self. Qed.
End RoutingTableFacts.

(** C7.  For 16-bit identities the bucket index lies in [0,15]; it depends
    on the two identities only, not on the contents of the table; and the
    index of the local identity itself is 0. *)
Theorem getBucketIndex_deterministic_in_range (this : RoutingTable.t) (peerIdentity : string) :
  is_identity (RoutingTable.this_peerID this) = true ->
  is_identity peerIdentity = true ->
  0 <= RoutingTable.getBucketIndex this peerIdentity <= 15 /\
  (forall other : RoutingTable.t,
      RoutingTable.this_peerID other = RoutingTable.this_peerID this ->
      RoutingTable.getBucketIndex other peerIdentity
      = RoutingTable.getBucketIndex this peerIdentity) /\
  (peerIdentity = RoutingTable.this_peerID this ->
   RoutingTable.getBucketIndex this peerIdentity = 0).
Proof.
  intros Hlocal _. split; [|split].
  - pose proof (getBucketIndex_bounds this peerIdentity) as H.
    rewrite (is_identity_length _ Hlocal) in H. lia.
  - intros other Heq. unfold RoutingTable.getBucketIndex. by rewrite Heq.
  - intros ->. apply getBucketIndex_self.
Qed.

Lemma getBucketIndex_deterministic_in_range_witness :
  is_identity "a3f0" = true /\ is_identity "a1c4" = true /\
  0 <= RoutingTable.getBucketIndex (RoutingTable.constructor "a3f0") "a1c4" <= 15.
Proof.
  split; [reflexivity|split; [reflexivity|]].
  apply (getBucketIndex_deterministic_in_range (RoutingTable.constructor "a3f0") "a1c4");
    reflexivity.
Defined.

Section RoutingTableInvariant.
Import Singleton RoutingTable.

Lemma wf_constructor id : wf (constructor id).
Proof.
  intros i bucket [-> _]%lookup_replicate. split; [cbn; lia|].
  intros peer Hin. by apply elem_of_nil in Hin.
Qed.

Lemma wf_insert this i bucket :
  wf this ->
  (List.length bucket <= 1)%nat ->
  (forall peer, peer ∈ bucket -> getBucketIndex this (peerID peer) = Z.of_nat i) ->
  wf (set_kBuckets this (<[i := bucket]> (kBuckets this))).
Proof.
  intros Hwf Hlen Hidx j b Hj. cbn in Hj.
  destruct (decide (i = j)) as [->|Hne].
  - apply list_lookup_insert_Some in Hj as [(_ & <- & _)|(? & _)]; [|done].
    split; [done|]. intros peer Hin. rewrite getBucketIndex_set_kBuckets. by apply Hidx.
  - rewrite list_lookup_insert_ne in Hj by done.
    destruct (Hwf j b Hj) as [Hl Hi]. split; [done|].
    intros peer Hin. rewrite getBucketIndex_set_kBuckets. by apply Hi.
Qed.

Lemma pushBucket_cases this peer now :
  let peer' := match lastSeen peer with None => set_lastSeen now peer | Some _ => peer end in
  let i := Z.to_nat (getBucketIndex this (peerID peer)) in
  pushBucket this peer now =
    if String.eqb (peerID peer) "" then Some this
    else match kBuckets this !! i with
         | None => None
         | Some [] => Some (set_kBuckets this (<[i := [peer']]> (kBuckets this)))
         | Some (existingPeer :: others) =>
             if comparePeerDistance this existingPeer peer'
             then Some (set_kBuckets this (<[i := peer' :: others]> (kBuckets this)))
             else Some this
         end.
Proof.
  unfold pushBucket. cbv zeta.
  destruct (String.eqb (peerID peer) ""); [done|].
  assert (peerID (match lastSeen peer with None => set_lastSeen now peer | Some _ => peer end)
          = peerID peer) as -> by (by destruct (lastSeen peer)).
  pose proof (getBucketIndex_bounds this (peerID peer)) as Hb.
  destruct (Z.eqb_spec (getBucketIndex this (peerID peer)) (-1)); [lia|done].
Qed.

Lemma wf_pushBucket this peer now this' :
  wf this -> pushBucket this peer now = Some this' -> wf this'.
Proof.
  intros Hwf. rewrite pushBucket_cases. cbv zeta.
  set (peer' := match lastSeen peer with None => set_lastSeen now peer | Some _ => peer end).
  assert (peerID peer' = peerID peer) as Hid by (subst peer'; by destruct (lastSeen peer)).
  pose proof (getBucketIndex_bounds this (peerID peer)) as Hb.
  destruct (String.eqb (peerID peer) ""); [by intros [= <-]|].
  destruct (kBuckets this !! Z.to_nat (getBucketIndex this (peerID peer)))
    as [[|existingPeer others]|] eqn:Hbucket; [| |done].
  - intros [= <-]. apply wf_insert; [done|cbn; lia|].
    intros p ->%list_elem_of_singleton. rewrite Hid. lia.
  - destruct (Hwf _ _ Hbucket) as [Hlen _].
    destruct others; [|cbn in Hlen; lia].
    destruct (comparePeerDistance this existingPeer peer'); intros [= <-]; [|done].
    apply wf_insert; [done|cbn; lia|].
    intros p ->%list_elem_of_singleton. rewrite Hid. lia.
Qed.

Lemma wf_removePeer this id : wf this -> wf (removePeer this id).
Proof.
  intros Hwf. unfold removePeer.
  destruct (Z.eqb_spec (getBucketIndex this id) (-1)); [done|].
  destruct (kBuckets this !! Z.to_nat (getBucketIndex this id)) as [bucket|] eqn:Hbucket; [|done].
  destruct (Hwf _ _ Hbucket) as [Hlen Hidx].
  apply wf_insert; [done| |].
  - pose proof (length_filter (fun peer => peerID peer <> id) bucket). lia.
  - intros peer [_ Hin]%list_elem_of_filter. by apply Hidx.
Qed.

Lemma wf_apply this op : wf this -> wf (apply this op).
Proof.
  intros Hwf. destruct op as [peer now|id]; cbn.
  - destruct (pushBucket this peer now) as [this'|] eqn:Hpush; [|done].
    by eapply wf_pushBucket.
  - by apply wf_removePeer.
Qed.

Lemma length_pushBucket this peer now this' :
  pushBucket this peer now = Some this' ->
  List.length (kBuckets this') = List.length (kBuckets this).
Proof.
  rewrite pushBucket_cases. cbv zeta.
  repeat case_match; intros [= <-]; cbn; by rewrite ?length_insert.
Qed.

Lemma length_removePeer this id :
  List.length (kBuckets (removePeer this id)) = List.length (kBuckets this).
Proof. unfold removePeer. repeat case_match; cbn; by rewrite ?length_insert. Qed.

Lemma length_apply this op :
  List.length (kBuckets (apply this op)) = List.length (kBuckets this).
Proof.
  destruct op as [peer now|id]; cbn; [|apply length_removePeer].
  destruct (pushBucket this peer now) eqn:Hpush; [|done]. by eapply length_pushBucket.
Qed.

Lemma after_invariant id ops :
  wf (after id ops) /\ List.length (kBuckets (after id ops)) = 16%nat.
Proof.
  unfold after. induction ops as [|op ops IH] using rev_ind.
  - split; [apply wf_constructor|done].
  - rewrite foldl_snoc. destruct IH as [Hwf Hlen].
    split; [by apply wf_apply|by rewrite length_apply].
Qed.

(** A record of a well-formed table is found in one bucket only. *)
Lemma wf_one_bucket this i j bi bj p q :
  wf this ->
  kBuckets this !! i = Some bi -> kBuckets this !! j = Some bj ->
  p ∈ bi -> q ∈ bj -> peerID p = peerID q -> i = j.
Proof.
  intros Hwf Hi Hj Hp Hq Heq.
  destruct (Hwf _ _ Hi) as [_ Hpi]. destruct (Hwf _ _ Hj) as [_ Hqj].
  specialize (Hpi _ Hp). specialize (Hqj _ Hq). rewrite Heq in Hpi. lia.
Qed.
End RoutingTableInvariant.

(** C8.  After any sequence of [pushBucket] and [removePeer] on a fresh
    table there are 16 buckets, each holds at most one record, and two
    records with the same identity are in the same bucket. *)
Theorem buckets_hold_at_most_one (localIdentity : string) (ops : list RoutingTable.Op) :
  let table := RoutingTable.after localIdentity ops in
  List.length (RoutingTable.kBuckets table) = 16%nat /\
  (forall i bucket, RoutingTable.kBuckets table !! i = Some bucket ->
                    (List.length bucket <= 1)%nat) /\
  (forall i j bi bj p q,
      RoutingTable.kBuckets table !! i = Some bi ->
      RoutingTable.kBuckets table !! j = Some bj ->
      p ∈ bi -> q ∈ bj -> peerID p = peerID q -> i = j).
Proof.
  intros table. destruct (after_invariant localIdentity ops) as [Hwf Hlen].
  split; [done|split].
  - intros i bucket Hi. by destruct (Hwf i bucket Hi).
  - intros i j bi bj p q. by apply wf_one_bucket.
Qed.

Lemma buckets_hold_at_most_one_witness :
  RoutingTable.kBuckets table_of_two !! 15%nat = Some [set_lastSeen 2 peer_0001] /\
  (List.length [set_lastSeen 2 peer_0001] <= 1)%nat.
Proof.
  split; [reflexivity|].
  destruct (buckets_hold_at_most_one "0000"
              [RoutingTable.Push peer_8000 1; RoutingTable.Push peer_0001 2])
    as (_ & Hone & _).
  apply (Hone 15%nat [set_lastSeen 2 peer_0001]). reflexivity.
Defined.

(** C2.  Tie-break of [pushBucket] on an occupied bucket: with the incumbent
    at distance [d1] and time [t1] and the candidate at distance [d2] and
    time [t2] (the current tick when the candidate carries none), the
    candidate takes the incumbent's place when [d2 < d1], or [d2 = d1] and
    [t2 > t1]; in every other case the table is left as it was. *)
Theorem pushBucket_tie_break
    (this : RoutingTable.t) (incumbent candidate : Peer) (now d1 d2 t1 : Z) :
  let candidate' := match lastSeen candidate with
                    | None => set_lastSeen now candidate
                    | Some _ => candidate
                    end in
  let i := Z.to_nat (RoutingTable.getBucketIndex this (peerID candidate)) in
  let t2 := default now (lastSeen candidate) in
  peerID candidate <> "" ->
  RoutingTable.kBuckets this !! i = Some [incumbent] ->
  RoutingTable.distance this (peerID incumbent) = Some d1 ->
  RoutingTable.distance this (peerID candidate) = Some d2 ->
  lastSeen incumbent = Some t1 ->
  (d2 < d1 \/ (d2 = d1 /\ t2 > t1) ->
   RoutingTable.pushBucket this candidate now
   = Some (RoutingTable.set_kBuckets this (<[i := [candidate']]> (RoutingTable.kBuckets this))))
  /\
  (~ (d2 < d1 \/ (d2 = d1 /\ t2 > t1)) ->
   RoutingTable.pushBucket this candidate now = Some this).
Proof.
  intros candidate' i t2 Hid Hbucket Hd1 Hd2 Ht1.
  rewrite pushBucket_cases. cbv zeta. fold candidate' i.
  apply String.eqb_neq in Hid. rewrite Hid, Hbucket.
  assert (peerID candidate' = peerID candidate) as Hid'
    by (subst candidate'; by destruct (lastSeen candidate)).
  assert (lastSeen candidate' = Some t2) as Ht2
    by (subst candidate' t2; destruct (lastSeen candidate) eqn:E; [by rewrite E|done]).
  unfold RoutingTable.comparePeerDistance.
  rewrite Hid', Hd1, Hd2, Ht1, Ht2. cbn [num_lt num_eq num_gt].
  destruct (Z.ltb_spec d2 d1), (Z.eqb_spec d2 d1), (Z.ltb_spec t1 t2);
    (split; intros Hcase; [first [reflexivity | exfalso; lia] ..]).
Qed.

Lemma pushBucket_tie_break_witness :
  RoutingTable.pushBucket table_with_incumbent candidate_8000 20
  = Some (RoutingTable.mk "0000" (<[0%nat := [candidate_8000]]> (replicate 16 []))).
Proof.
  apply (pushBucket_tie_break table_with_incumbent incumbent_8001 candidate_8000
           20 32769 32768 10);
    [discriminate|reflexivity|reflexivity|reflexivity|reflexivity|lia].
Defined.

(** C4 (the code at the failing input).  With local identity [0000] and
    the peers [8000] and [0001] in the table, [getClosestPeers] asked for
    the target [8001] returns [0001], at XOR distance 32768 from the target,
    although [8000] is at distance 1 from it: the distances compared are
    those to the local identity. *)
Theorem getClosestPeers_measures_from_local_identity :
  RoutingTable.flat table_of_two
  = [set_lastSeen 1 peer_8000; set_lastSeen 2 peer_0001] /\
  RoutingTable.getClosestPeers table_of_two "8001" = [set_lastSeen 2 peer_0001] /\
  RoutingTable.distance (RoutingTable.constructor "8001") "8000" = Some 1 /\
  RoutingTable.distance (RoutingTable.constructor "8001") "0001" = Some 32768.
Proof. vm_compute. done. Qed.

(** ** Membership in the table *)

Section Membership.
Import RoutingTable.

Lemma hasPeer_spec this id :
  hasPeer this id = true <-> id ∈ map peerID (flat this).
Proof.
  unfold hasPeer, flat. rewrite existsb_exists. split.
  - intros (bucket & Hb & (peer & Hp & Heq)%existsb_exists).
    apply String.eqb_eq in Heq as <-.
    apply list_elem_of_fmap_2, list_elem_of_In, in_concat. eauto.
  - intros (peer & -> & (bucket & Hb & Hp)%list_elem_of_In%in_concat)%list_elem_of_fmap_1.
    exists bucket. split; [done|]. apply existsb_exists.
    exists peer. split; [done|]. apply String.eqb_refl.
Qed.

Lemma hasPeer_false this id :
  hasPeer this id = false <-> id ∉ map peerID (flat this).
Proof. rewrite <- hasPeer_spec. by destruct (hasPeer this id). Qed.

Lemma elem_of_flat this peer :
  peer ∈ flat this <-> exists i bucket, kBuckets this !! i = Some bucket /\ peer ∈ bucket.
Proof.
  unfold flat. rewrite list_elem_of_In, in_concat. split.
  - intros (bucket & [i Hi]%list_elem_of_In%list_elem_of_lookup_1 & Hp%list_elem_of_In). eauto.
  - intros (i & bucket & Hi%list_elem_of_lookup_2%list_elem_of_In & Hp%list_elem_of_In). eauto.
Qed.

(** In a well-formed table no identity occurs twice. *)
Lemma NoDup_buckets (index : string -> Z) (bs : list (list Peer)) (k : nat) :
  (forall i bucket, bs !! i = Some bucket ->
     (List.length bucket <= 1)%nat /\
     forall peer, peer ∈ bucket -> index (peerID peer) = Z.of_nat (k + i)) ->
  NoDup (map peerID (concat bs)).
Proof.
  revert k. induction bs as [|b bs IH]; intros k H; [constructor|].
  cbn [concat]. rewrite map_app. apply NoDup_app. split; [|split].
  - destruct (H 0%nat b eq_refl) as [Hlen _].
    destruct b as [|p [|q b]]; cbn in *; [constructor| |lia].
    apply NoDup_singleton.
  - intros id (p & -> & Hp)%list_elem_of_fmap_1 (q & Heq & Hq)%list_elem_of_fmap_1.
    apply list_elem_of_In, in_concat in Hq as (b' & [i Hi]%list_elem_of_In%list_elem_of_lookup_1 & Hq).
    destruct (H 0%nat b eq_refl) as [_ Hp0]. specialize (Hp0 _ Hp).
    destruct (H (S i) b' Hi) as [_ Hq0]. specialize (Hq0 q).
    rewrite <- Heq in Hq0. rewrite Hq0 in Hp0 by by apply list_elem_of_In. lia.
  - apply (IH (S k)). intros i bucket Hi.
    destruct (H (S i) bucket Hi) as [Hlen Hidx]. split; [done|].
    intros peer Hp. rewrite (Hidx peer Hp). f_equal. lia.
Qed.

Lemma wf_NoDup this : wf this -> NoDup (map peerID (flat this)).
Proof.
  intros Hwf. apply (NoDup_buckets (getBucketIndex this) _ 0). exact Hwf.
Qed.

Lemma hasPeer_removePeer_ne this id id' :
  id <> id' -> hasPeer (removePeer this id) id' = hasPeer this id'.
Proof.
  intros Hne. apply eq_true_iff_eq. rewrite !hasPeer_spec.
  unfold removePeer. destruct (Z.eqb_spec (getBucketIndex this id) (-1)); [done|].
  destruct (kBuckets this !! Z.to_nat (getBucketIndex this id)) as [bucket|] eqn:Hbucket; [|done].
  set (i := Z.to_nat (getBucketIndex this id)) in *.
  split; intros (peer & -> & Hp)%list_elem_of_fmap_1; apply list_elem_of_fmap_2;
    apply elem_of_flat in Hp as (j & b & Hj & Hp); apply elem_of_flat.
  - cbn in Hj. destruct (decide (i = j)) as [<-|Hij].
    + apply list_lookup_insert_Some in Hj as [(_ & <- & _)|(? & _)]; [|done].
      apply list_elem_of_filter in Hp as [_ Hp]. eauto.
    + rewrite list_lookup_insert_ne in Hj by done. eauto.
  - destruct (decide (i = j)) as [<-|Hij].
    + exists i, (filter (fun peer => peerID peer <> id) bucket). split.
      * cbn. apply list_lookup_insert_eq. by eapply lookup_lt_Some.
      * apply list_elem_of_filter. split; [congruence|]. congruence.
    + exists j, b. split; [|done]. cbn. by rewrite list_lookup_insert_ne.
Qed.

Lemma hasPeer_removePeer_eq this id :
  wf this -> hasPeer (removePeer this id) id = false.
Proof.
  intros Hwf. apply hasPeer_false.
  intros (peer & Heq & Hp)%list_elem_of_fmap_1.
  apply elem_of_flat in Hp as (j & b & Hj & Hp).
  pose proof (wf_removePeer this id Hwf) as Hwf'.
  destruct (Hwf' j b Hj) as [_ Hidx]. specialize (Hidx peer Hp).
  revert Hj Hidx. unfold removePeer.
  destruct (Z.eqb_spec (getBucketIndex this id) (-1)) as [E|E].
  { pose proof (getBucketIndex_bounds this id). lia. }
  destruct (kBuckets this !! Z.to_nat (getBucketIndex this id)) as [bucket|] eqn:Hbucket.
  - rewrite getBucketIndex_set_kBuckets. cbn. intros Hj Hidx.
    rewrite <- Heq in Hidx.
    assert (j = Z.to_nat (getBucketIndex this id)) as -> by lia.
    apply list_lookup_insert_Some in Hj as [(_ & <- & _)|(? & _)]; [|done].
    apply list_elem_of_filter in Hp as [Hne _]. congruence.
  - intros Hj Hidx. rewrite <- Heq in Hidx.
    assert (j = Z.to_nat (getBucketIndex this id)) as -> by lia. congruence.
Qed.
End Membership.

(** ** The liveness cycle *)

Section Counting.
Import RoutingTable Heartbeat.

Lemma inherited_proto id : inherited id = false -> String.eqb id "__proto__" = false.
Proof.
  intros Hid. destruct (String.eqb_spec id "__proto__") as [->|Hne]; [|done].
  vm_compute in Hid. discriminate Hid.
Qed.

Lemma lookup_assign_ne key value counts id :
  key <> id -> assign key value counts !! id = counts !! id.
Proof. intros Hne. unfold assign. case_match; [done|by rewrite lookup_insert_ne]. Qed.

Lemma tally_other st id' id :
  id' <> id ->
  missedCounts (tally st id') !! id = missedCounts st !! id /\
  hasPeer (routingTable (tally st id')) id = hasPeer (routingTable st) id.
Proof.
  intros Hne. unfold tally.
  destruct (is_undefined (missedCounts st) id'); case_match; cbn;
    rewrite ?lookup_delete_ne, lookup_assign_ne by done;
    (split; [done|]); done || by apply hasPeer_removePeer_ne.
Qed.

Lemma tally_wf st id : wf (routingTable st) -> wf (routingTable (tally st id)).
Proof.
  intros Hwf. unfold tally.
  destruct (is_undefined (missedCounts st) id); case_match; cbn;
    done || by apply wf_removePeer.
Qed.

Lemma toNumber_insert counts id value : toNumber (<[id := value]> counts) id = value.
Proof. unfold toNumber. by rewrite lookup_insert_eq. Qed.

(** The peer the callback is called for, when its identity is not
    ["__proto__"]: the count computed is stored, and the peer leaves the
    table, and the count the map, when it is a number from 3 on. *)
Lemma tally_self st id :
  wf (routingTable st) -> id <> "__proto__" ->
  if at_least (next_missed st id) 3
  then hasPeer (routingTable (tally st id)) id = false /\
       missedCounts (tally st id) !! id = None
  else hasPeer (routingTable (tally st id)) id = hasPeer (routingTable st) id /\
       missedCounts (tally st id) !! id = Some (next_missed st id).
Proof.
  intros Hwf Hne. apply String.eqb_neq in Hne.
  unfold tally, next_missed, assign. rewrite Hne.
  destruct (is_undefined (missedCounts st) id); rewrite !toNumber_insert.
  - cbn. split; [done|apply lookup_insert_eq].
  - destruct (at_least (increment (toNumber (missedCounts st) id)) 3); cbn.
    + split; [by apply hasPeer_removePeer_eq|apply lookup_delete_eq].
    + split; [done|apply lookup_insert_eq].
Qed.

Lemma foldl_tally_wf st l :
  wf (routingTable st) -> wf (routingTable (foldl tally_peer st l)).
Proof. revert st. induction l as [|p l IH]; intros st Hwf; [done|]. by apply IH, tally_wf. Qed.

Lemma foldl_tally_others st l id :
  id ∉ map peerID l ->
  missedCounts (foldl tally_peer st l) !! id = missedCounts st !! id /\
  hasPeer (routingTable (foldl tally_peer st l)) id = hasPeer (routingTable st) id.
Proof.
  revert st. induction l as [|p l IH]; intros st Hnotin; [done|].
  cbn [map] in Hnotin. apply not_elem_of_cons in Hnotin as [Hne Hnotin].
  cbn [foldl]. destruct (IH (tally_peer st p) Hnotin) as [-> ->].
  by apply tally_other.
Qed.

(** The callbacks of a list of peers that holds [id] once. *)
Lemma foldl_tally_present st l id :
  wf (routingTable st) -> id <> "__proto__" ->
  NoDup (map peerID l) -> id ∈ map peerID l ->
  hasPeer (routingTable st) id = true ->
  if at_least (next_missed st id) 3
  then hasPeer (routingTable (foldl tally_peer st l)) id = false /\
       missedCounts (foldl tally_peer st l) !! id = None
  else hasPeer (routingTable (foldl tally_peer st l)) id = true /\
       missedCounts (foldl tally_peer st l) !! id = Some (next_missed st id).
Proof.
  intros Hwf Hne Hnodup Hin' Hin.
  apply list_elem_of_fmap_1 in Hin' as (peer & -> & Hp).
  apply list_elem_of_split in Hp as (l1 & l2 & ->).
  rewrite map_app in Hnodup. cbn [map] in Hnodup.
  apply NoDup_app in Hnodup as (_ & Hl1 & [Hl2 _]%NoDup_cons).
  assert (peerID peer ∉ map peerID l1) as Hl1'.
  { intros Hx. apply (Hl1 _ Hx). left. }
  rewrite foldl_app. cbn [foldl].
  destruct (foldl_tally_others st l1 _ Hl1') as [Hc1 Hh1].
  pose proof (tally_self (foldl tally_peer st l1) (peerID peer)
                (foldl_tally_wf st l1 Hwf) Hne) as Hself.
  assert (next_missed (foldl tally_peer st l1) (peerID peer) = next_missed st (peerID peer))
    as Hnext by (unfold next_missed, is_undefined, toNumber; by rewrite Hc1).
  rewrite Hnext, Hh1, Hin in Hself.
  destruct (foldl_tally_others (tally_peer (foldl tally_peer st l1) peer) l2 _ Hl2) as [-> ->].
  exact Hself.
Qed.

Lemma tally_numeric st id : numeric (missedCounts st) -> numeric (missedCounts (tally st id)).
Proof.
  intros Hnum key Hkey. destruct (decide (id = key)) as [<-|Hne].
  - destruct (inherited id) eqn:Hinh; [done|]. exfalso.
    revert Hkey. unfold tally, assign. rewrite (inherited_proto id Hinh).
    unfold is_undefined, toNumber. rewrite Hinh.
    destruct (missedCounts st !! id) as [[n|]|] eqn:Hold; cbn [negb increment].
    + rewrite lookup_insert_eq. case_match; cbn.
      * by rewrite lookup_delete_eq.
      * by rewrite lookup_insert_eq.
    + apply Hnum in Hold. congruence.
    + rewrite lookup_insert_eq. case_match; cbn.
      * by rewrite lookup_delete_eq.
      * by rewrite lookup_insert_eq.
  - destruct (tally_other st id key Hne) as [Heq _]. rewrite Heq in Hkey. by apply Hnum.
Qed.

Lemma foldl_tally_numeric st l :
  numeric (missedCounts st) -> numeric (missedCounts (foldl tally_peer st l)).
Proof. revert st. induction l as [|p l IH]; intros st H; [done|]. by apply IH, tally_numeric. Qed.

(** In such a state the count computed for an identity that is no
    inherited name is a number: 1 when there is no entry, one more than the
    entry otherwise. *)
Lemma next_missed_number st id :
  numeric (missedCounts st) -> inherited id = false ->
  match missedCounts st !! id with
  | None => next_missed st id = Num 1
  | Some (Num n) => next_missed st id = Num (n + 1)
  | Some NaN => False
  end.
Proof.
  intros Hnum Hinh. unfold next_missed, is_undefined, toNumber. rewrite Hinh.
  destruct (missedCounts st !! id) as [[n|]|] eqn:Hold; [done| |done].
  apply Hnum in Hold. congruence.
Qed.

Lemma peerID_touch id now peer : peerID (touch id now peer) = peerID peer.
Proof. unfold touch. by case_match. Qed.

Lemma handleHeartbeatResponse_flat_ids st id now :
  map peerID (flat (routingTable (handleHeartbeatResponse st id now)))
  = map peerID (flat (routingTable st)).
Proof.
  unfold flat. cbn. induction (kBuckets (routingTable st)) as [|b bs IH]; [done|].
  cbn [map concat]. rewrite !map_app, IH. f_equal.
  rewrite map_map. apply map_ext. intros peer. apply peerID_touch.
Qed.

Lemma handleHeartbeatResponse_hasPeer st id now id' :
  hasPeer (routingTable (handleHeartbeatResponse st id now)) id'
  = hasPeer (routingTable st) id'.
Proof.
  apply eq_true_iff_eq. by rewrite !hasPeer_spec, handleHeartbeatResponse_flat_ids.
Qed.

Lemma handleHeartbeatResponse_wf st id now :
  wf (routingTable st) -> wf (routingTable (handleHeartbeatResponse st id now)).
Proof.
  intros Hwf i bucket Hi. cbn in Hi.
  rewrite list_lookup_fmap in Hi.
  destruct (kBuckets (routingTable st) !! i) as [b|] eqn:Hb; [|done].
  cbn in Hi. injection Hi as <-. destruct (Hwf i b Hb) as [Hlen Hidx].
  split; [by rewrite length_map|].
  intros peer (p & -> & Hp)%list_elem_of_fmap_1.
  rewrite peerID_touch. by apply Hidx.
Qed.

Lemma handleHeartbeatResponse_missed st id now id' :
  missedCounts (handleHeartbeatResponse st id now) !! id'
  = if decide (id = id') then Some (Num 0) else missedCounts st !! id'.
Proof. cbn. apply lookup_insert. Qed.

Lemma handleHeartbeatResponse_numeric st id now :
  numeric (missedCounts st) -> numeric (missedCounts (handleHeartbeatResponse st id now)).
Proof.
  intros Hnum key. rewrite handleHeartbeatResponse_missed.
  destruct (decide (id = key)); [done|apply Hnum].
Qed.
End Counting.

Section Cycle.
Import RoutingTable Heartbeat.
Context (selfInfo : SelfInfo.t) (sendFunction : Peer -> list byte -> Result unit).

Local Abbreviation visit := (visit selfInfo sendFunction).
Local Abbreviation forEach_visit := (forEach_visit selfInfo sendFunction).
Local Abbreviation heartbeatCycle := (heartbeatCycle selfInfo sendFunction).
Local Abbreviation step := (step selfInfo sendFunction).
Local Abbreviation run := (run selfInfo sendFunction).

Lemma visit_Ok st peer st' : visit st peer = Ok st' -> st' = tally_peer st peer.
Proof.
  unfold Heartbeat.visit.
  destruct (kPTP.createHeartbeatMessage _ _ _ _) as [msg|e]; [|done]. cbn.
  destruct (sendFunction peer msg) as [[]|e]; [|done]. cbn. by intros [= <-].
Qed.

(** A run of the loop is the callbacks of the peers it visited, in order;
    it ran to its end when it visited them all. *)
Lemma forEach_visit_prefix st peers :
  exists visited rest,
    peers = (visited ++ rest)%list /\
    (forEach_visit st peers).1 = foldl tally_peer st visited /\
    ((forEach_visit st peers).2 = Ok tt <-> rest = []).
Proof.
  revert st. induction peers as [|peer peers IH]; intros st.
  - exists [], []. done.
  - cbn [Heartbeat.forEach_visit]. destruct (visit st peer) as [st'|e] eqn:Hvisit.
    + apply visit_Ok in Hvisit as ->.
      destruct (IH (tally_peer st peer)) as (visited & rest & -> & Hstate & Hend).
      exists (peer :: visited), rest. done.
    + exists [], (peer :: peers). done.
Qed.

Lemma heartbeatCycle_wf st :
  wf (routingTable st) -> wf (routingTable (heartbeatCycle st).1).
Proof.
  intros Hwf. unfold Heartbeat.heartbeatCycle.
  destruct (forEach_visit_prefix st (getAllPeers (routingTable st)))
    as (visited & rest & _ & -> & _).
  by apply foldl_tally_wf.
Qed.

Lemma heartbeatCycle_numeric st :
  numeric (missedCounts st) -> numeric (missedCounts (heartbeatCycle st).1).
Proof.
  intros Hnum. unfold Heartbeat.heartbeatCycle.
  destruct (forEach_visit_prefix st (getAllPeers (routingTable st)))
    as (visited & rest & _ & -> & _).
  by apply foldl_tally_numeric.
Qed.

(** The effect of a cycle on a peer of the table whose identity is not
    ["__proto__"]: the callback has run for it, or an exception has ended
    the cycle before. *)
Lemma heartbeatCycle_present st id :
  wf (routingTable st) -> id <> "__proto__" ->
  hasPeer (routingTable st) id = true ->
  (if at_least (next_missed st id) 3
   then hasPeer (routingTable (heartbeatCycle st).1) id = false /\
        missedCounts (heartbeatCycle st).1 !! id = None
   else hasPeer (routingTable (heartbeatCycle st).1) id = true /\
        missedCounts (heartbeatCycle st).1 !! id = Some (next_missed st id))
  \/
  ((heartbeatCycle st).2 <> Ok tt /\
   hasPeer (routingTable (heartbeatCycle st).1) id = true /\
   missedCounts (heartbeatCycle st).1 !! id = missedCounts st !! id).
Proof.
  intros Hwf Hne Hin. unfold Heartbeat.heartbeatCycle, getAllPeers.
  pose proof (wf_NoDup _ Hwf) as Hnodup.
  apply hasPeer_spec in Hin as Hin'. unfold flat in *.
  destruct (forEach_visit_prefix st (concat (kBuckets (routingTable st))))
    as (visited & rest & Hsplit & -> & Hend).
  rewrite Hsplit in Hnodup, Hin'. rewrite map_app in Hnodup, Hin'.
  apply NoDup_app in Hnodup as (Hvisited & _ & _).
  destruct (decide (id ∈ map peerID visited)) as [Hreached|Hnot].
  - left. by apply foldl_tally_present.
  - right. destruct (foldl_tally_others st visited id Hnot) as [-> ->].
    split; [|done]. intros Hok. apply Hend in Hok as ->.
    rewrite elem_of_app in Hin'. destruct Hin' as [?|Hnil]; [done|].
    cbn in Hnil. by apply elem_of_nil in Hnil.
Qed.

(** A cycle neither creates an entry nor a record for an identity that is
    not in the table. *)
Lemma heartbeatCycle_absent st id :
  hasPeer (routingTable st) id = false ->
  hasPeer (routingTable (heartbeatCycle st).1) id = false /\
  missedCounts (heartbeatCycle st).1 !! id = missedCounts st !! id.
Proof.
  intros Hout. apply hasPeer_false in Hout as Hout'.
  unfold Heartbeat.heartbeatCycle, getAllPeers. unfold flat in Hout'.
  destruct (forEach_visit_prefix st (concat (kBuckets (routingTable st))))
    as (visited & rest & Hsplit & -> & _).
  rewrite Hsplit, map_app in Hout'. apply not_elem_of_app in Hout' as [Hnot _].
  destruct (foldl_tally_others st visited id Hnot) as [-> ->]. done.
Qed.

Lemma step_wf st ev : wf (routingTable st) -> wf (routingTable (step st ev)).
Proof.
  intros Hwf. destruct ev as [peer now|id| |id now]; cbn [Heartbeat.step routingTable].
  - destruct (pushBucket (routingTable st) peer now) eqn:Hpush; [|done].
    by eapply wf_pushBucket.
  - by apply wf_removePeer.
  - by apply heartbeatCycle_wf.
  - by apply handleHeartbeatResponse_wf.
Qed.

Lemma foldl_step_wf st evs : wf (routingTable st) -> wf (routingTable (foldl step st evs)).
Proof. revert st. induction evs as [|ev evs IH]; intros st Hwf; [done|]. by apply IH, step_wf. Qed.

Lemma run_wf evs : wf (routingTable (run evs)).
Proof. apply foldl_step_wf, wf_constructor. Qed.

Lemma step_numeric st ev :
  numeric (missedCounts st) -> numeric (missedCounts (step st ev)).
Proof.
  intros Hnum. destruct ev as [peer now|id| |id now]; cbn [Heartbeat.step missedCounts];
    [done|done| |].
  - by apply heartbeatCycle_numeric.
  - by apply handleHeartbeatResponse_numeric.
Qed.

Lemma foldl_step_numeric st evs :
  numeric (missedCounts st) -> numeric (missedCounts (foldl step st evs)).
Proof.
  revert st. induction evs as [|ev evs IH]; intros st H; [done|]. by apply IH, step_numeric.
Qed.

Lemma run_numeric evs : numeric (missedCounts (run evs)).
Proof. apply foldl_step_numeric. intros key Hkey. cbn in Hkey. by rewrite lookup_empty in Hkey. Qed.



End Cycle.




(** C6 (as stated, refuted).  A heartbeat response of an identity that is
    not in the table leaves an entry for it in the missed-count map; and
    [removePeer] takes a peer out of the table while its entry stays. *)
Lemma missedCounts_entry_without_peer :
  (Heartbeat.missedCounts
     (Heartbeat.run self_0000 DHTPeer.sendHeartbeatToPeer [Heartbeat.HeartbeatResponse "abcd" 7])
     !! "abcd" = Some (Heartbeat.Num 0) /\
   RoutingTable.hasPeer
     (Heartbeat.routingTable
        (Heartbeat.run self_0000 DHTPeer.sendHeartbeatToPeer
           [Heartbeat.HeartbeatResponse "abcd" 7]))
     "abcd" = false) /\
  (Heartbeat.missedCounts
     (Heartbeat.run self_0000 DHTPeer.sendHeartbeatToPeer
        (met_one_cycled ++ [Heartbeat.RemovePeer "8000"]))
     !! "8000" = Some (Heartbeat.Num 1) /\
   RoutingTable.hasPeer
     (Heartbeat.routingTable
        (Heartbeat.run self_0000 DHTPeer.sendHeartbeatToPeer
           (met_one_cycled ++ [Heartbeat.RemovePeer "8000"])))
     "8000" = false).
Proof. vm_compute. done. Qed.

(** C6 (amended).  In every reachable state, for an identity of the table
    that is not the name of an inherited property, a liveness cycle has one
    of three outcomes: the identity is in the table with the count computed
    for it as its entry, a number below 3; or it is in neither the table
    nor the map; or an exception has ended the cycle before the peer was
    visited, and the peer and its entry are as they were.  The cycle
    creates no entry for an identity that is not in the table.  A heartbeat
    response sets the entry of its identity to 0 whether or not that
    identity is in the table, and does not change which identities are in
    the table; [removePeer] leaves the map as it is. *)
Theorem missedCounts_follow_the_cycle
    (selfInfo : SelfInfo.t) (sendFunction : Peer -> list byte -> Result unit)
    (history : list Heartbeat.Event) (id : string) (now : Z) :
  let st := Heartbeat.run selfInfo sendFunction history in
  let cycle := Heartbeat.heartbeatCycle selfInfo sendFunction st in
  let cycled := cycle.1 in
  let answered := Heartbeat.handleHeartbeatResponse st id now in
  (RoutingTable.hasPeer (Heartbeat.routingTable st) id = true ->
   Heartbeat.inherited id = false ->
   (RoutingTable.hasPeer (Heartbeat.routingTable cycled) id = true /\
    Heartbeat.missedCounts cycled !! id = Some (Heartbeat.next_missed st id) /\
    exists n, Heartbeat.next_missed st id = Heartbeat.Num n /\ n < 3)
   \/
   (RoutingTable.hasPeer (Heartbeat.routingTable cycled) id = false /\
    Heartbeat.missedCounts cycled !! id = None)
   \/
   (cycle.2 <> Ok tt /\
    RoutingTable.hasPeer (Heartbeat.routingTable cycled) id = true /\
    Heartbeat.missedCounts cycled !! id = Heartbeat.missedCounts st !! id)) /\
  (RoutingTable.hasPeer (Heartbeat.routingTable st) id = false ->
   RoutingTable.hasPeer (Heartbeat.routingTable cycled) id = false /\
   Heartbeat.missedCounts cycled !! id = Heartbeat.missedCounts st !! id) /\
  (Heartbeat.missedCounts answered !! id = Some (Heartbeat.Num 0) /\
   RoutingTable.hasPeer (Heartbeat.routingTable answered) id
   = RoutingTable.hasPeer (Heartbeat.routingTable st) id) /\
  Heartbeat.missedCounts (Heartbeat.step selfInfo sendFunction st (Heartbeat.RemovePeer id))
  = Heartbeat.missedCounts st.
Proof.
  intros st cycle cycled answered. split; [|split; [|split]].
  - intros Hin Hinh.
    assert (id <> "__proto__") as Hne by by apply String.eqb_neq, inherited_proto.
    destruct (heartbeatCycle_present selfInfo sendFunction st id (run_wf _ _ _) Hne Hin)
      as [H|H]; [|by right; right].
    pose proof (next_missed_number st id (run_numeric _ _ _) Hinh) as Hnum.
    assert (exists n, Heartbeat.next_missed st id = Heartbeat.Num n) as [n Hn].
    { destruct (Heartbeat.missedCounts st !! id) as [[k|]|]; [eauto|done|eauto]. }
    rewrite Hn in H. cbn [Heartbeat.at_least] in H.
    destruct (Z.leb_spec 3 n); [by right; left|left].
    destruct H as [H1 H2]. rewrite Hn. eauto 6.
  - apply heartbeatCycle_absent.
  - split; [|apply handleHeartbeatResponse_hasPeer].
    subst answered. rewrite handleHeartbeatResponse_missed. by rewrite decide_True.
  - reflexivity.
Qed.

Lemma missedCounts_follow_the_cycle_witness :
  RoutingTable.hasPeer
    (Heartbeat.routingTable
       (Heartbeat.run self_0000 DHTPeer.sendHeartbeatToPeer met_one_cycled)) "8000"
  = true /\
  RoutingTable.hasPeer
    (Heartbeat.routingTable
       (Heartbeat.heartbeatCycle self_0000 DHTPeer.sendHeartbeatToPeer
          (Heartbeat.run self_0000 DHTPeer.sendHeartbeatToPeer met_one_cycled)).1)
    "8000" = true /\
  Heartbeat.missedCounts
    (Heartbeat.heartbeatCycle self_0000 DHTPeer.sendHeartbeatToPeer
       (Heartbeat.run self_0000 DHTPeer.sendHeartbeatToPeer met_one_cycled)).1
    !! "8000" = Some (Heartbeat.Num 2).
Proof.
  destruct (missedCounts_follow_the_cycle self_0000 DHTPeer.sendHeartbeatToPeer
              met_one_cycled "8000" 3) as (Hcycle & _).
  destruct (Hcycle ltac:(reflexivity) ltac:(reflexivity))
    as [(Hin & Hcount & _)|[(Hout & _)|(Hthrow & _)]].
  - split; [reflexivity|]. split; [exact Hin|exact Hcount].
  - discriminate Hout.
  - exfalso. apply Hthrow. reflexivity.
Defined.

(** C10.  Frame of [handleHeartbeatResponse]: the entry of the responding
    identity becomes 0 and no other entry changes; the local identity, the
    number of buckets and the length of each bucket are unchanged; and each
    record keeps its identity, address, port and name, its [lastSeen] being
    the current tick when its identity is the responding one and unchanged
    otherwise. *)
Theorem handleHeartbeatResponse_frame (st : Heartbeat.Node) (id : string) (now : Z) :
  let st' := Heartbeat.handleHeartbeatResponse st id now in
  let buckets := RoutingTable.kBuckets (Heartbeat.routingTable st) in
  let buckets' := RoutingTable.kBuckets (Heartbeat.routingTable st') in
  Heartbeat.missedCounts st' !! id = Some (Heartbeat.Num 0) /\
  (forall other, other <> id ->
     Heartbeat.missedCounts st' !! other = Heartbeat.missedCounts st !! other) /\
  RoutingTable.this_peerID (Heartbeat.routingTable st')
  = RoutingTable.this_peerID (Heartbeat.routingTable st) /\
  List.length buckets' = List.length buckets /\
  (forall i bucket, buckets !! i = Some bucket ->
     exists bucket', buckets' !! i = Some bucket' /\
       List.length bucket' = List.length bucket /\
       forall j peer, bucket !! j = Some peer ->
         exists peer', bucket' !! j = Some peer' /\
           peerID peer' = peerID peer /\ ip peer' = ip peer /\ port peer' = port peer /\
           senderName peer' = senderName peer /\
           lastSeen peer' = if decide (peerID peer = id) then Some now else lastSeen peer).
Proof.
  intros st' buckets buckets'. split; [|split; [|split; [|split]]].
  - subst st'. rewrite handleHeartbeatResponse_missed. by rewrite decide_True.
  - intros other Hne. subst st'. rewrite handleHeartbeatResponse_missed.
    by rewrite decide_False.
  - reflexivity.
  - subst buckets' buckets st'. cbn. by rewrite length_map.
  - intros i bucket Hi. exists (map (Heartbeat.touch id now) bucket). split; [|split].
    + subst buckets' st'. cbn. rewrite list_lookup_fmap. fold buckets. by rewrite Hi.
    + by rewrite length_map.
    + intros j peer Hj. exists (Heartbeat.touch id now peer). split.
      * rewrite list_lookup_fmap. by rewrite Hj.
      * unfold Heartbeat.touch. destruct (String.eqb_spec (peerID peer) id) as [E|E].
        -- by rewrite decide_True.
        -- by rewrite decide_False.
Qed.

Lemma handleHeartbeatResponse_frame_witness :
  exists bucket',
    RoutingTable.kBuckets
      (Heartbeat.routingTable
         (Heartbeat.handleHeartbeatResponse (Heartbeat.run self_0000 DHTPeer.sendHeartbeatToPeer met_one_cycled) "8000" 40))
      !! 0%nat = Some bucket' /\
    exists peer', bucket' !! 0%nat = Some peer' /\ lastSeen peer' = Some 40.
Proof.
  destruct (handleHeartbeatResponse_frame (Heartbeat.run self_0000 DHTPeer.sendHeartbeatToPeer met_one_cycled) "8000" 40)
    as (_ & _ & _ & _ & Hframe).
  destruct (Hframe 0%nat [set_lastSeen 1 peer_8000] ltac:(reflexivity))
    as (bucket' & Hb & _ & Hrecords).
  exists bucket'. split; [exact Hb|].
  destruct (Hrecords 0%nat (set_lastSeen 1 peer_8000) ltac:(reflexivity))
    as (peer' & Hp & _ & _ & _ & _ & Hseen).
  exists peer'. split; [exact Hp|exact Hseen].
Defined.

Local Open Scope list_scope.

(** ** The decoder *)

Section Decoder.
Import Buffer kPTP.

Lemma readUInt8_app pre buffer offset :
  readUInt8 (pre ++ buffer) (List.length pre + offset) = readUInt8 buffer offset.
Proof. unfold readUInt8. by rewrite lookup_app_r, Nat.add_sub' by lia. Qed.

Lemma readUInt16BE_app pre buffer offset :
  readUInt16BE (pre ++ buffer) (List.length pre + offset) = readUInt16BE buffer offset.
Proof.
  unfold readUInt16BE.
  rewrite (lookup_app_r pre buffer (List.length pre + offset)) by lia.
  rewrite (lookup_app_r pre buffer (S (List.length pre + offset))) by lia.
  by replace (S (List.length pre + offset) - List.length pre)%nat with (S offset) by lia;
     rewrite Nat.add_sub'.
Qed.

Lemma slice_app pre buffer start end_ :
  slice (pre ++ buffer) (List.length pre + start) (List.length pre + end_)
  = slice buffer start end_.
Proof.
  unfold slice. rewrite drop_app_ge by lia.
  f_equal; [lia|]. f_equal. lia.
Qed.

(** The loop reads the buffer from its offset on: bytes in front shift
    the offsets and nothing else. *)
Lemma decodePeers_app pre buffer n offset :
  decodePeers (pre ++ buffer) n (List.length pre + offset)
  = match decodePeers buffer n offset with
    | Ok (entries, after) => Ok (entries, (List.length pre + after)%nat)
    | Throw e => Throw e
    end.
Proof.
  revert offset. induction n as [|n IH]; intros offset; [done|].
  cbn [decodePeers].
  replace (List.length pre + offset + 4)%nat with (List.length pre + (offset + 4))%nat by lia.
  replace (List.length pre + (offset + 4) + 2)%nat
    with (List.length pre + (offset + 4 + 2))%nat by lia.
  replace (List.length pre + (offset + 4 + 2) + 2)%nat
    with (List.length pre + (offset + 4 + 2 + 2))%nat by lia.
  rewrite !slice_app, readUInt16BE_app.
  destruct (readUInt16BE buffer (offset + 4)) as [port|e]; [|done].
  cbn. rewrite IH.
  destruct (decodePeers buffer n (offset + 4 + 2 + 2)) as [[entries after]|e]; done.
Qed.

Lemma readUInt16BE_inside buffer offset :
  (offset + 2 <= List.length buffer)%nat ->
  exists v, readUInt16BE buffer offset = Ok v.
Proof.
  intros Hlen. unfold readUInt16BE.
  destruct (lookup_lt_is_Some_2 buffer offset ltac:(lia)) as [first ->].
  destruct (lookup_lt_is_Some_2 buffer (S offset) ltac:(lia)) as [last ->]. eauto.
Qed.

Lemma readUInt16BE_outside buffer offset :
  (List.length buffer < offset + 2)%nat ->
  readUInt16BE buffer offset = Throw RangeError.
Proof.
  intros Hlen. unfold readUInt16BE.
  rewrite (lookup_ge_None_2 buffer (S offset)) by lia. by destruct (buffer !! offset).
Qed.

(** The loop throws exactly when the port of some entry is not inside
    the buffer; the identity of the last entry may be cut short. *)
Lemma decodePeers_result buffer n offset :
  if decide (0 < n /\ List.length buffer < offset + 8 * n - 2)%nat
  then decodePeers buffer n offset = Throw RangeError
  else exists entries, decodePeers buffer n offset = Ok (entries, (offset + 8 * n)%nat).
Proof.
  revert offset. induction n as [|n IH]; intros offset.
  - rewrite decide_False by lia. exists []. cbn. f_equal. f_equal. lia.
  - cbn [decodePeers].
    destruct (decide (List.length buffer < offset + 4 + 2)%nat) as [Hshort|Hlong].
    + rewrite decide_True by lia. by rewrite readUInt16BE_outside.
    + destruct (readUInt16BE_inside buffer (offset + 4) ltac:(lia)) as [port ->]. cbn.
      specialize (IH (offset + 4 + 2 + 2)%nat).
      destruct (decide (0 < n /\ List.length buffer < offset + 4 + 2 + 2 + 8 * n - 2)%nat)
        as [Hn|Hn].
      * rewrite decide_True by lia. by rewrite IH.
      * rewrite decide_False by lia. destruct IH as [entries ->]. cbn.
        eexists. f_equal. f_equal. lia.
Qed.
End Decoder.

Section DecoderLaws.
Import Buffer kPTP.
Context {J : Type} (null : J) (JSON_parse : list Z -> option J).

(** The decoder on a buffer of at least five bytes: the header is read,
    and the rest is decided by the loop. *)
Lemma decodeMessage_header v ty count hi lo body :
  decodeMessage null JSON_parse (v :: ty :: count :: hi :: lo :: body)
  = match decodePeers body (Z.to_nat (u8 count)) 0 with
    | Ok (entries, after) =>
        let nameLength := Z.to_nat (u8 hi * 256 + u8 lo) in
        Ok {| version := u8 v; messageType := u8 ty; numPeers := u8 count;
              senderName := toString_utf8 (slice body after (after + nameLength));
              peers := entries;
              selfInfo :=
                if (after + nameLength <? List.length body)%nat
                then match JSON_parse (toString_utf8 (drop (after + nameLength) body)) with
                     | Some value => value
                     | None => null
                     end
                else null |}
    | Throw e => Throw e
    end.
Proof.
  unfold decodeMessage. cbn [readUInt8 readUInt16BE lookup list_lookup mbind Result_bind].
  pose proof (decodePeers_app [v; ty; count; hi; lo] body (Z.to_nat (u8 count)) 0) as H.
  cbn [List.length app Nat.add] in H. rewrite H.
  destruct (decodePeers body (Z.to_nat (u8 count)) 0) as [[entries after]|e]; [|done].
  reflexivity.
Qed.

Lemma decodeMessage_short buffer :
  (List.length buffer < 5)%nat -> decodeMessage null JSON_parse buffer = Throw RangeError.
Proof.
  intros Hlen. destruct buffer as [|v [|ty [|count [|hi [|lo body]]]]]; try reflexivity.
  cbn in Hlen. lia.
Qed.
End DecoderLaws.

(** C5 (as stated, refuted).  A header announcing a name of five bytes
    with no byte after it, and a header announcing one peer entry followed
    by an address and a port but no identity and no name, are both shorter
    than the length their header implies; [decodeMessage] returns a message
    for each, with the missing fields empty. *)
Lemma decodeMessage_accepts_truncated_buffers :
  (implied_length buffer_without_name = Some 10 /\
   List.length buffer_without_name = 5%nat /\
   kPTP.decodeMessage tt (fun _ : list Z => @None unit) buffer_without_name
   = Ok {| kPTP.version := 18; kPTP.messageType := 2; kPTP.numPeers := 0;
           kPTP.senderName := []; kPTP.peers := []; kPTP.selfInfo := tt |}) /\
  (implied_length buffer_without_identity = Some 16 /\
   List.length buffer_without_identity = 11%nat /\
   kPTP.decodeMessage tt (fun _ : list Z => @None unit) buffer_without_identity
   = Ok {| kPTP.version := 18; kPTP.messageType := 2; kPTP.numPeers := 1;
           kPTP.senderName := [];
           kPTP.peers := [ {| peerID := ""; ip := "127.0.0.1"; port := 5000;
                              senderName := None; lastSeen := None |} ];
           kPTP.selfInfo := tt |}).
Proof. vm_compute. done. Qed.

(** C5 (amended).  [decodeMessage] throws a [RangeError] when the buffer is
    shorter than the 5-byte header, or when, with [PeerCount > 0], it is
    shorter than [5 + 8 * PeerCount - 2] bytes, so that the port of some
    peer entry is not inside the buffer.  On every other buffer it returns
    a message; a buffer that only lacks the identity of the last entry or
    part of the sender name is decoded with those fields cut short. *)
Theorem decodeMessage_throws_when_reads_leave_buffer
    {J : Type} (null : J) (JSON_parse : list Z -> option J) (buffer : list byte) :
  if too_short_to_read buffer
  then kPTP.decodeMessage null JSON_parse buffer = Throw RangeError
  else exists message, kPTP.decodeMessage null JSON_parse buffer = Ok message.
Proof.
  unfold too_short_to_read.
  destruct (Z.ltb_spec (Z.of_nat (List.length buffer)) 5) as [Hshort|Hlong].
  { cbn [orb]. apply decodeMessage_short. lia. }
  cbn [orb].
  destruct buffer as [|v [|ty [|count [|hi [|lo body]]]]]; cbn [List.length] in Hlong; try lia.
  cbn [lookup list_lookup]. rewrite decodeMessage_header.
  pose proof (decodePeers_result body (Z.to_nat (Buffer.u8 count)) 0) as Hloop.
  assert (0 <= Buffer.u8 count) as Hcount by (unfold Buffer.u8; lia).
  destruct (Z.ltb_spec 0 (Buffer.u8 count)) as [Hpos|Hzero]; cbn [andb].
  - destruct (Z.ltb_spec (Z.of_nat (List.length (v :: ty :: count :: hi :: lo :: body)))
                         (5 + 8 * Buffer.u8 count - 2)) as [Hlt|Hge];
      cbn [List.length] in *.
    + rewrite decide_True in Hloop by lia. by rewrite Hloop.
    + rewrite decide_False in Hloop by lia. destruct Hloop as [entries ->]. eauto.
  - rewrite decide_False in Hloop by lia. destruct Hloop as [entries ->]. eauto.
Qed.

(** C9.  Two buffers that differ in byte 0 only are decoded alike: both
    are rejected with the same error, or both give a message, and the two
    messages agree in every field but [version], which is byte 0 of each.
    No value of the version byte is refused. *)
Theorem decodeMessage_ignores_version
    {J : Type} (null : J) (JSON_parse : list Z -> option J)
    (version1 version2 : byte) (rest : list byte) :
  match kPTP.decodeMessage null JSON_parse (version1 :: rest),
        kPTP.decodeMessage null JSON_parse (version2 :: rest) with
  | Ok m1, Ok m2 =>
      kPTP.version m1 = Buffer.u8 version1 /\
      kPTP.version m2 = Buffer.u8 version2 /\
      kPTP.messageType m1 = kPTP.messageType m2 /\
      kPTP.numPeers m1 = kPTP.numPeers m2 /\
      kPTP.senderName m1 = kPTP.senderName m2 /\
      kPTP.peers m1 = kPTP.peers m2 /\
      kPTP.selfInfo m1 = kPTP.selfInfo m2
  | Throw e1, Throw e2 => e1 = e2
  | _, _ => False
  end.
Proof.
  destruct rest as [|ty [|count [|hi [|lo body]]]]; try exact eq_refl.
  rewrite !decodeMessage_header.
  destruct (kPTP.decodePeers body (Z.to_nat (Buffer.u8 count)) 0) as [[entries after]|e];
    cbn; auto 10.
Qed.

(** ** The encoder *)

Section Bytes.
Import Buffer.

Lemma to_N_of_u8 z : 0 <= z < 256 -> Byte.to_N (of_u8 z) = Z.to_N z.
Proof.
  intros Hz. unfold of_u8.
  destruct (Byte.of_N (Z.to_N z)) as [b|] eqn:Hb.
  - cbn. by apply Byte.to_of_N.
  - apply Byte.of_N_None_iff in Hb. lia.
Qed.

Lemma u8_of_u8 z : 0 <= z < 256 -> u8 (of_u8 z) = z.
Proof. intros Hz. unfold u8. rewrite to_N_of_u8 by done. lia. Qed.

Lemma u8_range b : 0 <= u8 b < 256.
Proof. unfold u8. pose proof (Byte.to_N_bounded b). lia. Qed.

Lemma lower_hex_digit c :
  is_lower_hex c = true ->
  exists h, Singleton.parseInt16 c = Some h /\ 0 <= h < 16 /\ hexDigit h = c.
Proof.
  destruct c as [[] [] [] [] [] [] [] []]; vm_compute; intros H; try discriminate H;
    eexists; (split; [reflexivity|split; [split; [discriminate|reflexivity]|reflexivity]]).
Qed.

Lemma hex_pair h l :
  0 <= h < 16 -> 0 <= l < 16 ->
  u8 (of_u8 (16 * h + l)) / 16 = h /\ u8 (of_u8 (16 * h + l)) mod 16 = l.
Proof.
  intros Hh Hl. rewrite u8_of_u8 by lia. split; Z.div_mod_to_equations; lia.
Qed.

Lemma toString_hex_from_hex s :
  is_lower_identity s = true ->
  exists i1 i2, from_hex s = [i1; i2] /\ toString_hex [i1; i2] = s.
Proof.
  destruct s as [|a [|b [|c [|d [|e s]]]]]; try discriminate. cbn [is_lower_identity].
  intros (((Ha & Hb)%andb_true_iff & Hc)%andb_true_iff & Hd)%andb_true_iff.
  destruct (lower_hex_digit a Ha) as (ha & Hpa & Hra & Hda).
  destruct (lower_hex_digit b Hb) as (hb & Hpb & Hrb & Hdb).
  destruct (lower_hex_digit c Hc) as (hc & Hpc & Hrc & Hdc).
  destruct (lower_hex_digit d Hd) as (hd & Hpd & Hrd & Hdd).
  exists (of_u8 (16 * ha + hb)), (of_u8 (16 * hc + hd)).
  cbn [from_hex]. rewrite Hpa, Hpb, Hpc, Hpd. split; [done|].
  cbn [toString_hex].
  destruct (hex_pair ha hb Hra Hrb) as [-> ->].
  destruct (hex_pair hc hd Hrc Hrd) as [-> ->].
  by rewrite Hda, Hdb, Hdc, Hdd.
Qed.

Lemma writeUInt16BE_ok v :
  0 <= v <= 65535 ->
  exists hi lo, writeUInt16BE v = Ok [hi; lo] /\ u8 hi * 256 + u8 lo = v.
Proof.
  intros Hv. unfold writeUInt16BE.
  destruct (Z.leb_spec 0 v), (Z.leb_spec v 65535); try lia. cbn [andb].
  eexists _, _. split; [reflexivity|].
  assert (0 <= v / 256 < 256) by (Z.div_mod_to_equations; lia).
  assert (0 <= v mod 256 < 256) by (Z.div_mod_to_equations; lia).
  rewrite !u8_of_u8 by done. Z.div_mod_to_equations. lia.
Qed.

Lemma writeUInt8_ok v : 0 <= v <= 255 -> writeUInt8 v = Ok [of_u8 v].
Proof.
  intros Hv. unfold writeUInt8.
  by destruct (Z.leb_spec 0 v), (Z.leb_spec v 255); try lia.
Qed.
End Bytes.

(** ** UTF-8 *)

Section Utf8.
Import Buffer.

(** The decoder on a well-formed sequence of one, two, three and four bytes. *)
Lemma toString_utf8_1 b0 rest :
  u8 b0 < 0x80 -> toString_utf8 (b0 :: rest) = u8 b0 :: toString_utf8 rest.
Proof. intros H. cbn [toString_utf8]. by decide_comparisons. Qed.

Lemma toString_utf8_2 b0 b1 rest :
  0xC2 <= u8 b0 <= 0xDF -> 0x80 <= u8 b1 <= 0xBF ->
  toString_utf8 (b0 :: b1 :: rest)
  = ((u8 b0 - 0xC0) * 64 + (u8 b1 - 0x80)) :: toString_utf8 rest.
Proof.
  intros H0 H1. remember (b1 :: rest) as tail eqn:Htail.
  cbn [toString_utf8]. unfold between. decide_comparisons.
  subst tail. by decide_comparisons.
Qed.

Lemma toString_utf8_3 b0 b1 b2 rest :
  0xE0 <= u8 b0 <= 0xEF ->
  (if u8 b0 =? 0xE0 then 0xA0 else 0x80) <= u8 b1 <= (if u8 b0 =? 0xED then 0x9F else 0xBF) ->
  0x80 <= u8 b2 <= 0xBF ->
  toString_utf8 (b0 :: b1 :: b2 :: rest)
  = ((u8 b0 - 0xE0) * 4096 + (u8 b1 - 0x80) * 64 + (u8 b2 - 0x80)) :: toString_utf8 rest.
Proof.
  intros H0 H1 H2. remember (b1 :: b2 :: rest) as tail eqn:Htail.
  cbn [toString_utf8]. unfold between.
  destruct (Z.ltb_spec (u8 b0) 0x80); [lia|].
  destruct (Z.leb_spec 0xC2 (u8 b0)), (Z.leb_spec (u8 b0) 0xDF); try lia; cbn [andb].
  all: destruct (Z.leb_spec 0xE0 (u8 b0)), (Z.leb_spec (u8 b0) 0xEF); try lia; cbn [andb].
  all: subst tail; cbv zeta.
  all: destruct (Z.leb_spec (if u8 b0 =? 0xE0 then 0xA0 else 0x80) (u8 b1)); [|lia].
  all: destruct (Z.leb_spec (u8 b1) (if u8 b0 =? 0xED then 0x9F else 0xBF)); [|lia].
  all: cbn [andb].
  all: destruct (Z.leb_spec 0x80 (u8 b2)), (Z.leb_spec (u8 b2) 0xBF); try lia; done.
Qed.

Lemma toString_utf8_4 b0 b1 b2 b3 rest :
  0xF0 <= u8 b0 <= 0xF4 ->
  (if u8 b0 =? 0xF0 then 0x90 else 0x80) <= u8 b1 <= (if u8 b0 =? 0xF4 then 0x8F else 0xBF) ->
  0x80 <= u8 b2 <= 0xBF -> 0x80 <= u8 b3 <= 0xBF ->
  toString_utf8 (b0 :: b1 :: b2 :: b3 :: rest)
  = (code_units ((u8 b0 - 0xF0) * 262144 + (u8 b1 - 0x80) * 4096
                 + (u8 b2 - 0x80) * 64 + (u8 b3 - 0x80))
     ++ toString_utf8 rest)%list.
Proof.
  intros H0 H1 H2 H3. remember (b1 :: b2 :: b3 :: rest) as tail eqn:Htail.
  cbn [toString_utf8]. unfold between.
  destruct (Z.ltb_spec (u8 b0) 0x80); [lia|].
  destruct (Z.leb_spec 0xC2 (u8 b0)), (Z.leb_spec (u8 b0) 0xDF); try lia; cbn [andb].
  all: destruct (Z.leb_spec 0xE0 (u8 b0)), (Z.leb_spec (u8 b0) 0xEF); try lia; cbn [andb].
  all: destruct (Z.leb_spec 0xF0 (u8 b0)), (Z.leb_spec (u8 b0) 0xF4); try lia; cbn [andb].
  all: subst tail; cbv zeta.
  all: destruct (Z.leb_spec (if u8 b0 =? 0xF0 then 0x90 else 0x80) (u8 b1)); [|lia].
  all: destruct (Z.leb_spec (u8 b1) (if u8 b0 =? 0xF4 then 0x8F else 0xBF)); [|lia].
  all: cbn [andb].
  all: destruct (Z.leb_spec 0x80 (u8 b2)), (Z.leb_spec (u8 b2) 0xBF); try lia; cbn [andb].
  all: destruct (Z.leb_spec 0x80 (u8 b3)), (Z.leb_spec (u8 b3) 0xBF); try lia; done.
Qed.

(** Decoding the bytes of a Unicode scalar value gives its code units. *)
Lemma toString_utf8_bytes c rest :
  0 <= c < 0xD800 \/ 0xE000 <= c < 0x110000 ->
  toString_utf8 (utf8_bytes c ++ rest)%list = (code_units c ++ toString_utf8 rest)%list.
Proof.
  intros Hc. unfold utf8_bytes.
  destruct (Z.ltb_spec c 0x80); [|destruct (Z.ltb_spec c 0x800); [|destruct (Z.ltb_spec c 0x10000)]];
    cbn [app].
  - rewrite toString_utf8_1; rewrite u8_of_u8 by lia; [|lia].
    unfold code_units. by decide_comparisons.
  - assert (2 <= c / 64 < 32 /\ 0 <= c mod 64 < 64 /\ c = 64 * (c / 64) + c mod 64)
      as (Hq & Hr & Heq) by (Z.div_mod_to_equations; lia).
    rewrite toString_utf8_2; rewrite !u8_of_u8 by lia; [|lia..].
    unfold code_units. decide_comparisons. cbn [app]. f_equal. lia.
  - assert (0 <= c / 4096 < 16 /\ 0 <= c / 64 mod 64 < 64 /\ 0 <= c mod 64 < 64 /\
            c = 4096 * (c / 4096) + 64 * (c / 64 mod 64) + c mod 64)
      as (Hq & Hm & Hr & Heq) by (Z.div_mod_to_equations; lia).
    rewrite toString_utf8_3; rewrite !u8_of_u8 by lia.
    + unfold code_units. decide_comparisons. cbn [app]. f_equal. lia.
    + lia.
    + decide_comparisons; lia.
    + lia.
  - assert (0 <= c / 262144 < 5 /\ 0 <= c / 4096 mod 64 < 64 /\ 0 <= c / 64 mod 64 < 64 /\
            0 <= c mod 64 < 64 /\
            c = 262144 * (c / 262144) + 4096 * (c / 4096 mod 64) + 64 * (c / 64 mod 64)
                + c mod 64)
      as (Hq & Hn & Hm & Hr & Heq) by (Z.div_mod_to_equations; lia).
    rewrite toString_utf8_4; rewrite !u8_of_u8 by lia.
    + do 2 f_equal. lia.
    + lia.
    + decide_comparisons; lia.
    + lia.
    + lia.
Qed.

Lemma toString_utf8_from_utf8 s : is_well_formed s = true -> toString_utf8 (from_utf8 s) = s.
Proof.
  remember (List.length s) as n eqn:Hn. revert s Hn.
  induction n as [n IH] using lt_wf_ind. intros s Hn Hwf.
  destruct s as [|u rest]; [done|].
  cbn [is_well_formed from_utf8] in *.
  destruct (is_high_surrogate u) eqn:Hhigh.
  - destruct rest as [|v rest']; [done|].
    apply andb_true_iff in Hwf as [Hlow Hwf]. rewrite Hlow.
    unfold is_high_surrogate, is_low_surrogate in *.
    apply andb_true_iff in Hhigh as [?%Z.leb_le ?%Z.leb_le].
    apply andb_true_iff in Hlow as [?%Z.leb_le ?%Z.leb_le].
    rewrite toString_utf8_bytes by lia.
    rewrite (IH (List.length rest')) by (cbn [List.length] in Hn; done || lia).
    unfold code_units. decide_comparisons. cbn [app].
    f_equal; [|f_equal]; Z.div_mod_to_equations; lia.
  - destruct (is_low_surrogate u) eqn:Hlow; [done|].
    apply andb_true_iff in Hwf as [[?%Z.leb_le ?%Z.leb_le]%andb_true_iff Hwf].
    unfold is_high_surrogate, is_low_surrogate in *.
    apply andb_false_iff in Hhigh, Hlow. rewrite !Z.leb_gt in Hhigh, Hlow.
    rewrite toString_utf8_bytes by lia.
    rewrite (IH (List.length rest)) by (cbn [List.length] in Hn; done || lia).
    unfold code_units. by decide_comparisons.
Qed.
End Utf8.

Section Encoder.
Import Buffer kPTP.

Lemma encodeIP_dotted s :
  is_dotted_quad s = true ->
  exists a b c d,
    encodeIP s = [a; b; c; d] /\
    String.concat "." (map (fun x => toString10 (Byte.to_N x)) [a; b; c; d]) = s.
Proof.
  unfold is_dotted_quad, encodeIP.
  destruct (map Number (split "." s)) as [|[a|] [|[b|] [|[c|] [|[d|] [|? ?]]]]]; try discriminate.
  intros ((((Ha%N.ltb_lt & Hb%N.ltb_lt)%andb_true_iff & Hc%N.ltb_lt)%andb_true_iff
           & Hd%N.ltb_lt)%andb_true_iff & Heq%String.eqb_eq)%andb_true_iff.
  eexists _, _, _, _. split; [reflexivity|].
  cbn [map lookup list_lookup toUint8 String.concat].
  rewrite !Z.mod_small by lia. rewrite !to_N_of_u8 by lia. rewrite !N2Z.id.
  symmetry. exact Heq.
Qed.

(** The eight bytes of a peer in wire form, and what the decoder reads
    from them. *)
Lemma encodePeerInfo_wire peer :
  wire_peer peer = true ->
  exists a b c d hi lo i1 i2,
    encodePeerInfo peer = Ok [a; b; c; d; hi; lo; i1; i2] /\
    String.concat "." (map (fun x => toString10 (Byte.to_N x)) [a; b; c; d]) = ip peer /\
    u8 hi * 256 + u8 lo = port peer /\
    toString_hex [i1; i2] = peerID peer.
Proof.
  unfold wire_peer.
  intros (((Hip & Hlo%Z.leb_le)%andb_true_iff & Hhi%Z.leb_le)%andb_true_iff
          & Hid)%andb_true_iff.
  destruct (encodeIP_dotted _ Hip) as (a & b & c & d & Hencode & Hdotted).
  destruct (writeUInt16BE_ok (port peer) ltac:(lia)) as (hi & lo & Hport & Hvalue).
  destruct (toString_hex_from_hex _ Hid) as (i1 & i2 & Hfrom & Hto).
  exists a, b, c, d, hi, lo, i1, i2. split; [|done].
  unfold encodePeerInfo, encodePort, encodePeerID. rewrite Hencode, Hport, Hfrom. done.
Qed.

Lemma decodePeers_encoded peers rest :
  forallb wire_peer peers = true ->
  exists bufs,
    map_encodePeerInfo peers = Ok bufs /\
    List.length (concat bufs) = (8 * List.length peers)%nat /\
    decodePeers (concat bufs ++ rest) (List.length peers) 0
    = Ok (map entry_of peers, (8 * List.length peers)%nat).
Proof.
  induction peers as [|peer peers IH]; intros Hwire.
  - exists []. done.
  - cbn [forallb] in Hwire. apply andb_true_iff in Hwire as [Hpeer Hpeers].
    destruct (IH Hpeers) as (bufs & Hbufs & Hlen & Hdecode).
    destruct (encodePeerInfo_wire peer Hpeer)
      as (a & b & c & d & hi & lo & i1 & i2 & Hencode & Hip & Hport & Hid).
    exists ([a; b; c; d; hi; lo; i1; i2] :: bufs). split; [|split].
    + cbn [map_encodePeerInfo]. rewrite Hencode, Hbufs. done.
    + cbn [concat]. rewrite length_app, Hlen. cbn [List.length]. lia.
    + cbn [concat List.length]. rewrite <- app_assoc.
      pose proof (decodePeers_app [a; b; c; d; hi; lo; i1; i2] (concat bufs ++ rest)
                    (List.length peers) 0) as Hshift.
      rewrite Hdecode in Hshift. cbn [List.length Nat.add] in Hshift.
      cbn [decodePeers]. cbn [Nat.add].
      change (slice ([a; b; c; d; hi; lo; i1; i2] ++ concat bufs ++ rest) 0 4)
        with [a; b; c; d].
      change (slice ([a; b; c; d; hi; lo; i1; i2] ++ concat bufs ++ rest) 6 8)
        with [i1; i2].
      change (readUInt16BE ([a; b; c; d; hi; lo; i1; i2] ++ concat bufs ++ rest) 4)
        with (Ok (u8 hi * 256 + u8 lo) : Result Z).
      rewrite Hip, Hid, Hport. cbn [mbind Result_bind].
      rewrite Hshift. cbn [mbind Result_bind fst snd map].
      unfold entry_of at 1. f_equal. f_equal. lia.
Qed.
End Encoder.

Section RoundTrip.
Import Buffer kPTP.
Context {J : Type} (null : J).
Context (JSON_parse : list Z -> option J) (JSON_stringify : J -> option (list Z)).

Lemma slice_prefix (front back : list byte) :
  slice (front ++ back) 0 (0 + List.length front) = front.
Proof. unfold slice. cbn [drop Nat.add]. rewrite Nat.sub_0_r. apply take_app_length. Qed.

(** A message in wire form is encoded, and the decoder reads it back
    whatever follows it in the buffer. *)
Lemma decodeMessage_createMessage messageType senderName peers :
  0 <= messageType <= 255 ->
  is_well_formed senderName = true ->
  byteLength senderName <= 65535 ->
  (List.length peers <= 255)%nat ->
  forallb wire_peer peers = true ->
  exists encoded,
    createMessage messageType senderName peers = Ok encoded /\
    forall extra,
      decodeMessage null JSON_parse (encoded ++ extra)
      = Ok {| version := kPTP_VERSION; messageType := messageType;
              numPeers := Z.of_nat (List.length peers);
              kPTP.senderName := senderName;
              kPTP.peers := map entry_of peers;
              selfInfo := match extra with
                          | [] => null
                          | _ :: _ => default null (JSON_parse (toString_utf8 extra))
                          end |}.
Proof.
  intros Htype Hformed Hname Hcount Hwire.
  assert (0 <= byteLength senderName) as Hname0 by (unfold byteLength; lia).
  destruct (writeUInt16BE_ok (byteLength senderName) ltac:(lia)) as (hi & lo & Hlen & Hvalue).
  destruct (decodePeers_encoded peers (from_utf8 senderName) Hwire)
    as (bufs & Hbufs & Hsize & _).
  exists ([of_u8 kPTP_VERSION; of_u8 messageType; of_u8 (Z.of_nat (List.length peers)); hi; lo]
          ++ concat bufs ++ from_utf8 senderName).
  split.
  { unfold createMessage, createHeader.
    rewrite (writeUInt8_ok kPTP_VERSION) by (unfold kPTP_VERSION; lia).
    rewrite (writeUInt8_ok messageType) by lia.
    rewrite (writeUInt8_ok (Z.of_nat (List.length peers))) by lia.
    rewrite Hlen. cbn [mbind Result_bind]. rewrite Hbufs. reflexivity. }
  intros extra. cbn [app]. rewrite decodeMessage_header.
  rewrite !u8_of_u8 by (unfold kPTP_VERSION; lia). rewrite Nat2Z.id, Hvalue.
  rewrite <- !app_assoc.
  destruct (decodePeers_encoded peers (from_utf8 senderName ++ extra) Hwire)
    as (bufs' & Hbufs' & _ & Hdecode).
  rewrite Hbufs in Hbufs'. injection Hbufs' as <-. rewrite Hdecode.
  cbv zeta. rewrite <- Hsize.
  assert (Z.to_nat (byteLength senderName) = List.length (from_utf8 senderName)) as ->
    by (unfold byteLength; lia).
  f_equal. f_equal.
  - pose proof (slice_app (concat bufs) (from_utf8 senderName ++ extra) 0
                  (0 + List.length (from_utf8 senderName))) as Hslice.
    rewrite Nat.add_0_r in Hslice. rewrite Nat.add_0_l in Hslice at 1.
    rewrite Hslice, slice_prefix.
    by apply toString_utf8_from_utf8.
  - rewrite !length_app.
    rewrite drop_app_ge by lia.
    replace (List.length (concat bufs) + List.length (from_utf8 senderName)
             - List.length (concat bufs))%nat
      with (List.length (from_utf8 senderName)) by lia.
    rewrite drop_app_length.
    destruct extra as [|x extra].
    + rewrite (proj2 (Nat.ltb_ge _ _)) by (cbn [List.length]; lia). done.
    + rewrite (proj2 (Nat.ltb_lt _ _)) by (cbn [List.length]; lia).
      by destruct (JSON_parse (toString_utf8 (x :: extra))).
Qed.

(** A name whose length does not fit the two bytes of the name-length
    field: the header cannot be written. *)
Lemma createMessage_long_name messageType senderName peers :
  0 <= messageType <= 255 ->
  65535 < byteLength senderName ->
  createMessage messageType senderName peers = Throw RangeError.
Proof.
  intros Htype Hname. unfold createMessage, createHeader.
  rewrite (writeUInt8_ok kPTP_VERSION) by (unfold kPTP_VERSION; lia).
  rewrite (writeUInt8_ok messageType) by lia. cbn [mbind Result_bind].
  unfold writeUInt8, writeUInt16BE.
  destruct ((0 <=? Z.of_nat (List.length peers)) && (Z.of_nat (List.length peers) <=? 255));
    [|done].
  cbn [mbind Result_bind].
  rewrite (proj2 (Z.leb_gt (byteLength senderName) 65535)) by lia.
  by rewrite andb_false_r.
Qed.
End RoundTrip.

(** C1 (as stated, refuted).  For a display name of 65536 bytes the
    encoder throws a [RangeError], already for a Welcome message with no
    peer at all: there is no byte sequence to decode.  A display name made
    of a surrogate without partner is sent as the three bytes of U+FFFD,
    and U+FFFD is the name the decoder returns.  And the decoder writes an
    identity in lower case and an address as the decimal rendering of the
    four bytes sent, whatever text the peer carried. *)
Lemma createMessage_loses_name_or_peer_text :
  (Buffer.byteLength name_of_65536_bytes = 65536 /\
   kPTP.createMessage (kPTP.MESSAGE_TYPE kPTP.WELCOME) name_of_65536_bytes []
   = Throw RangeError /\
   (kPTP.createMessage (kPTP.MESSAGE_TYPE kPTP.WELCOME) name_of_65536_bytes []
      ≫= kPTP.decodeMessage tt (fun _ : list Z => @None unit))
   = Throw RangeError) /\
  (Buffer.byteLength name_of_one_surrogate = 3 /\
   Buffer.from_utf8 name_of_one_surrogate = [xef; xbf; xbd] /\
   (kPTP.createMessage (kPTP.MESSAGE_TYPE kPTP.WELCOME) name_of_one_surrogate []
      ≫= kPTP.decodeMessage tt (fun _ : list Z => @None unit))
   = Ok {| kPTP.version := 18; kPTP.messageType := 2; kPTP.numPeers := 0;
           kPTP.senderName := [0xFFFD]; kPTP.peers := []; kPTP.selfInfo := tt |}) /\
  (kPTP.createMessage (kPTP.MESSAGE_TYPE kPTP.WELCOME) (js "Peer1")
     [peer_upper_case; peer_ipv6]
     ≫= kPTP.decodeMessage tt (fun _ : list Z => @None unit))
  = Ok {| kPTP.version := 18; kPTP.messageType := 2; kPTP.numPeers := 2;
          kPTP.senderName := js "Peer1";
          kPTP.peers := [ mkPeer "a3f0" "127.0.0.1" 5000 None None;
                          mkPeer "a3f0" "0.0.0.0" 5000 None None ];
          kPTP.selfInfo := tt |}.
Proof. vm_compute. done. Qed.

(** C1 (amended).  Round trip.  For every message type, every sender
    display name that is well-formed text (no surrogate without its
    partner) of at most 65535 bytes in UTF-8, and every list of at most 255
    peers in wire form (dotted-decimal address, port in 0..65535, identity
    of four lower-case hexadecimal digits), the encoder returns a buffer
    and decoding it gives back the version 18, the type, the peer count,
    the entry (ip, port, identity) of each peer, the sender name, and no
    self-description.  For a Hello message built with a self-description
    that the JSON codec writes as a non-empty well-formed text and reads
    back from it, decoding gives the same fields and that
    self-description.  For a display name of more than 65535 bytes, and
    whatever the peers, the encoder throws a [RangeError]. *)
Theorem decode_encode_round_trip
    {J : Type} (null : J)
    (JSON_parse : list Z -> option J) (JSON_stringify : J -> option (list Z))
    (messageType : kPTP.MessageType) (senderName : list Z) (peers : list Peer) :
  (is_well_formed senderName = true ->
   Buffer.byteLength senderName <= 65535 ->
   (List.length peers <= 255)%nat ->
   forallb wire_peer peers = true ->
   (kPTP.createMessage (kPTP.MESSAGE_TYPE messageType) senderName peers
      ≫= kPTP.decodeMessage null JSON_parse)
   = Ok {| kPTP.version := 18;
           kPTP.messageType := kPTP.MESSAGE_TYPE messageType;
           kPTP.numPeers := Z.of_nat (List.length peers);
           kPTP.senderName := senderName;
           kPTP.peers := map entry_of peers;
           kPTP.selfInfo := null |}
   /\
   forall (selfInfo : J) (text : list Z),
     JSON_stringify selfInfo = Some text ->
     text <> [] ->
     is_well_formed text = true ->
     JSON_parse text = Some selfInfo ->
     (kPTP.createHelloMessage JSON_stringify senderName peers selfInfo
        ≫= kPTP.decodeMessage null JSON_parse)
     = Ok {| kPTP.version := 18;
             kPTP.messageType := kPTP.MESSAGE_TYPE kPTP.HELLO;
             kPTP.numPeers := Z.of_nat (List.length peers);
             kPTP.senderName := senderName;
             kPTP.peers := map entry_of peers;
             kPTP.selfInfo := selfInfo |})
  /\
  (65535 < Buffer.byteLength senderName ->
   kPTP.createMessage (kPTP.MESSAGE_TYPE messageType) senderName peers = Throw RangeError /\
   forall selfInfo : J,
     kPTP.createHelloMessage JSON_stringify senderName peers selfInfo = Throw RangeError).
Proof.
  split.
  - intros Hformed Hname Hcount Hwire. split.
    + destruct (decodeMessage_createMessage null JSON_parse
                  (kPTP.MESSAGE_TYPE messageType) senderName peers)
        as (encoded & -> & Hdecode); [destruct messageType; cbn; lia|done..|].
      cbn [mbind Result_bind]. specialize (Hdecode []). by rewrite app_nil_r in Hdecode.
    + intros selfInfo text Hstringify Hnonempty Htext Hparse.
      destruct (decodeMessage_createMessage null JSON_parse
                  (kPTP.MESSAGE_TYPE kPTP.HELLO) senderName peers)
        as (encoded & Hencode & Hdecode); [cbn; lia|done..|].
      unfold kPTP.createHelloMessage. rewrite Hencode. cbn [mbind Result_bind].
      rewrite Hstringify. cbn [mbind Result_bind]. rewrite Hdecode.
      destruct (Buffer.from_utf8 text) as [|x bytes] eqn:Hbytes.
      * exfalso. apply Hnonempty.
        rewrite <- (toString_utf8_from_utf8 text Htext), Hbytes. reflexivity.
      * rewrite <- Hbytes, (toString_utf8_from_utf8 text Htext), Hparse. reflexivity.
  - intros Hlong. split.
    + apply createMessage_long_name; [destruct messageType; cbn; lia|done].
    + intros selfInfo. unfold kPTP.createHelloMessage.
      rewrite createMessage_long_name; [done|cbn; lia|done].
Qed.

Lemma decode_encode_round_trip_witness :
  (kPTP.createHelloMessage Some (js "Peer2") wire_peers (js "[127,0,0,1,5001]")
     ≫= kPTP.decodeMessage (js "null") Some)
  = Ok {| kPTP.version := 18;
          kPTP.messageType := 4;
          kPTP.numPeers := 2;
          kPTP.senderName := js "Peer2";
          kPTP.peers := [ mkPeer "a3f0" "127.0.0.1" 5000 None None;
                          mkPeer "00ff" "10.0.0.2" 65535 None None ];
          kPTP.selfInfo := js "[127,0,0,1,5001]" |}.
Proof.
  destruct (decode_encode_round_trip (js "null") Some Some kPTP.HELLO (js "Peer2") wire_peers)
    as [Hshort _].
  destruct Hshort as [_ Hhello];
    [reflexivity | vm_compute; discriminate | cbn; lia | reflexivity |].
  apply (Hhello (js "[127,0,0,1,5001]") (js "[127,0,0,1,5001]"));
    [reflexivity | discriminate | reflexivity | reflexivity].
Defined.
